(** * books_crud: a JSON-backed book catalog and its command-line operations

    A shallow embedding of [books_crud.py].  The program keeps a catalog of
    books as one JSON document on disk; every command loads the whole
    document, works on the in-memory value and writes the whole document
    back.

    Layout of the development:
    - [Json]: the values [json.load] produces, and the encoder and decoder
      of the [json] module on the fragment described below;
    - [Py]: how a piece of Python code ends, the process state (files,
      standard output, error stream), a small state-and-exception monad for
      the program's control flow, and Python's operations on values that
      the program uses;
    - [Crud]: the functions of [books_crud.py], one definition per function;
    - [Spec], [Examples] and [Endings]: the vocabulary of the specification,
      sample data, and the ways a run ends without success;
    - [JsonFacts], [CrudFacts], [Claims]: what is proved of the
      specification's properties;
    - [Outcomes], [Extras]: how every command ends on any store, and
      further properties of the commands.

    Scope of the model.  A Python [str] is modelled by a Rocq [string]:
    one [ascii] per character, so the model speaks about text whose code
    points are below 256.  A file holds decoded text: the text codec of
    [open] is not modelled, and with it neither a store file whose bytes are
    not UTF-8 (reading it raises [UnicodeDecodeError]) nor a string that
    cannot be encoded, such as a lone surrogate (writing it raises
    [UnicodeEncodeError] after the file was truncated).  Python floats are
    not modelled.  The limits of the interpreter are not modelled: the cap
    on the digits of an integer and the recursion limit, beyond which
    [json.load] raises [ValueError] and [RecursionError].  The decoder
    answers [Unmodelled] on a document that leaves the fragment by its
    syntax (a number with a fraction or an exponent, [NaN], [Infinity], a
    [\u] escape of a code point above 255); on text within those limits,
    whenever it answers [Parsed] or [DecodeError] it answers what
    [json.load] does.  A write always succeeds and is one step.  Of a
    command line that [argparse] rejects the model keeps the exit status:
    the usage and error lines [argparse] prints on the error stream, and
    [-h], are not modelled. *)

From Stdlib Require Import ZArith Ascii String List Decimal DecimalString Lia.
From Stdlib Require DecimalZ DecimalPos DecimalFacts.
From stdpp Require Import base option list gmap strings.

Local Open Scope string_scope.
Local Open Scope Z_scope.

(* ===================================================================== *)
(** * JSON values and the [json] module *)
(* ===================================================================== *)

Module Json.

(** What [json.load] can return (floats apart): [None], [bool], [int],
    [str], [list] and [dict].  A [dict] keeps insertion order, so it is an
    association list; Python's dicts never hold a key twice, which is the
    well-formedness predicate [wf] below. *)
#[warnings="-register-all"]
Inductive json : Type :=
| JNull
| JBool (b : bool)
| JInt (n : Z)
| JStr (s : string)
| JArr (items : list json)
| JObj (members : list (string * json)).

Definition dict := list (string * json).

(** [d.get(k)] *)
Fixpoint dict_get (k : string) (d : dict) : option json :=
  match d with
  | [] => None
  | (k', v) :: d' => if String.eqb k' k then Some v else dict_get k d'
  end.

(** [d[k] = v]: an existing key keeps its position, a new key goes last. *)
Fixpoint dict_set (k : string) (v : json) (d : dict) : dict :=
  match d with
  | [] => [(k, v)]
  | (k', v') :: d' =>
      if String.eqb k' k then (k', v) :: d' else (k', v') :: dict_set k v d'
  end.

(** [dict(pairs)] *)
Definition py_dict (pairs : list (string * json)) : dict :=
  fold_left (fun d kv => dict_set (fst kv) (snd kv) d) pairs [].

Definition keys (d : dict) : list string := map fst d.

(** Every dict in the value holds each key once. *)
Fixpoint wfb (v : json) : bool :=
  match v with
  | JArr items => forallb wfb items
  | JObj members =>
      bool_decide (NoDup (keys members))
      && forallb (fun kv => wfb (snd kv)) members
  | _ => true
  end.

Definition wf (v : json) : Prop := wfb v = true.

(** ** Characters *)

Definition DQUOTE : ascii := "034"%char.
Definition BACKSLASH : ascii := "092"%char.
Definition LF : ascii := "010"%char.
Definition CR : ascii := "013"%char.
Definition TAB : ascii := "009"%char.
Definition BS : ascii := "008"%char.
Definition FF : ascii := "012"%char.
Definition SPACE : ascii := " "%char.

Definition chr (c : ascii) : string := String c "".

(** ** Encoder: [json.dumps(v, ensure_ascii=False, indent=indent)] *)

(** [int.__repr__] *)
Definition int_repr (n : Z) : string := NilZero.string_of_int (Z.to_int n).

Definition hex_digit (n : N) : ascii :=
  match n with
  | 0 => "0" | 1 => "1" | 2 => "2" | 3 => "3" | 4 => "4" | 5 => "5"
  | 6 => "6" | 7 => "7" | 8 => "8" | 9 => "9" | 10 => "a" | 11 => "b"
  | 12 => "c" | 13 => "d" | 14 => "e" | _ => "f"
  end%N%char.

(** [ESCAPE_DCT]: the two-character escapes, and [\u00xx] for the other
    control characters.  With [ensure_ascii=False] nothing else is escaped. *)
Definition escape_char (c : ascii) : string :=
  if Ascii.eqb c DQUOTE then String BACKSLASH (chr DQUOTE)
  else if Ascii.eqb c BACKSLASH then String BACKSLASH (chr BACKSLASH)
  else if Ascii.eqb c LF then String BACKSLASH "n"
  else if Ascii.eqb c CR then String BACKSLASH "r"
  else if Ascii.eqb c TAB then String BACKSLASH "t"
  else if Ascii.eqb c BS then String BACKSLASH "b"
  else if Ascii.eqb c FF then String BACKSLASH "f"
  else if (N_of_ascii c <? 32)%N then
    String BACKSLASH
      ("u00" +:+ String (hex_digit (N_of_ascii c / 16))
                   (chr (hex_digit (N_of_ascii c mod 16))))
  else chr c.

Fixpoint escape (s : string) : string :=
  match s with
  | "" => ""
  | String c s' => escape_char c +:+ escape s'
  end.

(** [encode_basestring] *)
Definition encode_basestring (s : string) : string :=
  String DQUOTE (escape s +:+ chr DQUOTE).

Fixpoint spaces (n : nat) : string :=
  match n with O => "" | S n' => String SPACE (spaces n') end.

(** ['\n' + indent * level], or nothing when [indent] is [None]. *)
Definition newline_indent (indent : option nat) (level : nat) : string :=
  match indent with
  | None => ""
  | Some n => String LF (spaces (n * level))
  end.

(** The default separators: [", "] without indentation, [","] with. *)
Definition item_separator (indent : option nat) : string :=
  match indent with None => ", " | Some _ => "," end.

Definition key_separator : string := ": ".

(** [sep.join(l)] *)
Fixpoint join (sep : string) (l : list string) : string :=
  match l with
  | [] => ""
  | x :: l' =>
      match l' with
      | [] => x
      | _ :: _ => x +:+ sep +:+ join sep l'
      end
  end.

(** [_iterencode], with the chunks joined.  [level] is
    [_current_indent_level]; an empty list or dict is written without any
    line break. *)
Fixpoint encode (indent : option nat) (level : nat) (v : json) : string :=
  match v with
  | JNull => "null"
  | JBool true => "true"
  | JBool false => "false"
  | JInt n => int_repr n
  | JStr s => encode_basestring s
  | JArr [] => "[]"
  | JArr items =>
      "[" +:+ newline_indent indent (S level)
      +:+ join (item_separator indent +:+ newline_indent indent (S level))
               (map (encode indent (S level)) items)
      +:+ newline_indent indent level +:+ "]"
  | JObj [] => "{}"
  | JObj members =>
      "{" +:+ newline_indent indent (S level)
      +:+ join (item_separator indent +:+ newline_indent indent (S level))
               (map (fun kv => encode_basestring (fst kv) +:+ key_separator
                               +:+ encode indent (S level) (snd kv)) members)
      +:+ newline_indent indent level +:+ "}"
  end.

Definition dumps (indent : option nat) (v : json) : string := encode indent 0 v.

(** ** Decoder: [json.loads] *)

(** Result of a scanning function: the value and the text after it, a
    [JSONDecodeError], a document outside the modelled fragment, or a
    recursion budget that ran out (which [loads] never lets happen, see
    [loads_fuel]). *)
Inductive parsed (A : Type) : Type :=
| Parsed (a : A) (rest : string)
| DecodeError
| Unmodelled
| OutOfFuel.
Arguments Parsed {A} a rest.
Arguments DecodeError {A}.
Arguments Unmodelled {A}.
Arguments OutOfFuel {A}.

Definition parsed_map {A B : Type} (f : A -> B) (r : parsed A) : parsed B :=
  match r with
  | Parsed a rest => Parsed (f a) rest
  | DecodeError => DecodeError
  | Unmodelled => Unmodelled
  | OutOfFuel => OutOfFuel
  end.

(** [WHITESPACE_STR = ' \t\n\r'] *)
Definition is_ws (c : ascii) : bool :=
  Ascii.eqb c SPACE || Ascii.eqb c TAB || Ascii.eqb c LF || Ascii.eqb c CR.

(** [s[_w(s, end).end():]] *)
Fixpoint skip_ws (s : string) : string :=
  match s with
  | "" => ""
  | String c s' => if is_ws c then skip_ws s' else s
  end.

Definition hex_val (c : ascii) : option N :=
  let n := N_of_ascii c in
  if (48 <=? n)%N && (n <=? 57)%N then Some (n - 48)%N
  else if (97 <=? n)%N && (n <=? 102)%N then Some (n - 87)%N
  else if (65 <=? n)%N && (n <=? 70)%N then Some (n - 55)%N
  else None.

(** [_decode_uXXXX]: four hexadecimal digits. *)
Definition decode_uXXXX (h1 h2 h3 h4 : ascii) : option N :=
  match hex_val h1, hex_val h2, hex_val h3, hex_val h4 with
  | Some a, Some b, Some c, Some d => Some (((a * 16 + b) * 16 + c) * 16 + d)%N
  | _, _, _, _ => None
  end.

(** The [BACKSLASH] table of the decoder. *)
Definition unescape (e : ascii) : option ascii :=
  if Ascii.eqb e DQUOTE then Some DQUOTE
  else if Ascii.eqb e BACKSLASH then Some BACKSLASH
  else if Ascii.eqb e "/" then Some "/"%char
  else if Ascii.eqb e "b" then Some BS
  else if Ascii.eqb e "f" then Some FF
  else if Ascii.eqb e "n" then Some LF
  else if Ascii.eqb e "r" then Some CR
  else if Ascii.eqb e "t" then Some TAB
  else None.

(** [scanstring(s, end, strict=True)], entered after the opening quote.  A
    raw control character, an unknown escape and a missing closing quote
    are decode errors. *)
Fixpoint scanstring (s : string) : parsed string :=
  match s with
  | "" => DecodeError
  | String c r =>
      if Ascii.eqb c DQUOTE then Parsed "" r
      else if Ascii.eqb c BACKSLASH then
        match r with
        | "" => DecodeError
        | String e r1 =>
            if Ascii.eqb e "u" then
              match r1 with
              | String h1 (String h2 (String h3 (String h4 r2))) =>
                  match decode_uXXXX h1 h2 h3 h4 with
                  | None => DecodeError
                  | Some n =>
                      if (n <? 256)%N
                      then parsed_map (String (ascii_of_N n)) (scanstring r2)
                      else Unmodelled
                  end
              | _ => DecodeError
              end
            else
              match unescape e with
              | None => DecodeError
              | Some c' => parsed_map (String c') (scanstring r1)
              end
        end
      else if (N_of_ascii c <? 32)%N then DecodeError
      else parsed_map (String c) (scanstring r)
  end.

Definition digit (c : ascii) : option (uint -> uint) :=
  if Ascii.eqb c "0" then Some D0
  else if Ascii.eqb c "1" then Some D1
  else if Ascii.eqb c "2" then Some D2
  else if Ascii.eqb c "3" then Some D3
  else if Ascii.eqb c "4" then Some D4
  else if Ascii.eqb c "5" then Some D5
  else if Ascii.eqb c "6" then Some D6
  else if Ascii.eqb c "7" then Some D7
  else if Ascii.eqb c "8" then Some D8
  else if Ascii.eqb c "9" then Some D9
  else None.

Definition is_digit (c : ascii) : bool :=
  match digit c with Some _ => true | None => false end.

(** The longest run of digits at the head of [s] ([\d*]). *)
Fixpoint take_digits (s : string) : uint * string :=
  match s with
  | "" => (Nil, "")
  | String c r =>
      match digit c with
      | Some d => let '(u, rest) := take_digits r in (d u, rest)
      | None => (Nil, s)
      end
  end.

(** The integer part of [NUMBER_RE]: [0|[1-9]\d*]. *)
Definition match_integer (s : string) : option (uint * string) :=
  match s with
  | "" => None
  | String c r =>
      if Ascii.eqb c "0" then Some (D0 Nil, r)
      else if is_digit c then Some (take_digits s)
      else None
  end.

(** Does a fraction [\.\d+] or an exponent [[eE][-+]?\d+] follow? *)
Definition starts_frac (s : string) : bool :=
  match s with
  | String c (String d _) => Ascii.eqb c "." && is_digit d
  | _ => false
  end.

Definition starts_exp (s : string) : bool :=
  match s with
  | String c r =>
      (Ascii.eqb c "e" || Ascii.eqb c "E") &&
      match r with
      | String d r' =>
          is_digit d ||
          ((Ascii.eqb d "+" || Ascii.eqb d "-") &&
           match r' with String d' _ => is_digit d' | "" => false end)
      | "" => false
      end
  | "" => false
  end.

(** [s[idx:idx + len(p)] == p], with the text after the match. *)
Fixpoint strip_prefix (p s : string) : option string :=
  match p with
  | "" => Some s
  | String a p' =>
      match s with
      | String b s' => if Ascii.eqb a b then strip_prefix p' s' else None
      | "" => None
      end
  end.

Definition starts_with (p s : string) : bool :=
  match strip_prefix p s with Some _ => true | None => false end.

(** The number branch of [scan_once] ([match_number] and what follows it in
    the scanner): an integer literal gives an [int]; a literal with a
    fraction or an exponent, and the names [NaN], [Infinity], [-Infinity],
    give a float, which is outside the model; anything else is
    "Expecting value". *)
Definition scan_number (s : string) : parsed json :=
  let '(neg, s1) :=
    match s with
    | String c r => if Ascii.eqb c "-" then (true, r) else (false, s)
    | "" => (false, s)
    end in
  match match_integer s1 with
  | Some (u, rest) =>
      if starts_frac rest || starts_exp rest then Unmodelled
      else Parsed (JInt (Z.of_int (if neg then Neg u else Pos u))) rest
  | None =>
      if starts_with "NaN" s || starts_with "Infinity" s
         || starts_with "-Infinity" s
      then Unmodelled else DecodeError
  end.

(** [scan_once], [JSONArray] and [JSONObject].  [scan_once] reads one value
    at the head of the text.  [scan_items] is the loop of [JSONArray],
    entered at the first character of an item; [scan_members] is the loop
    of [JSONObject], entered after the opening quote of a key.  Both return
    what they collected, and [JSONObject] turns the pairs into a dict. *)
Fixpoint scan_once (fuel : nat) (s : string) {struct fuel} : parsed json :=
  match fuel with
  | O => OutOfFuel
  | S fuel' =>
      match s with
      | "" => DecodeError
      | String c r =>
          if Ascii.eqb c DQUOTE then parsed_map JStr (scanstring r)
          else if Ascii.eqb c "{" then
            match skip_ws r with
            | String c1 r1 =>
                if Ascii.eqb c1 "}" then Parsed (JObj []) r1
                else if Ascii.eqb c1 DQUOTE
                then parsed_map (fun ps => JObj (py_dict ps))
                                (scan_members fuel' r1)
                else DecodeError
            | "" => DecodeError
            end
          else if Ascii.eqb c "[" then
            match skip_ws r with
            | String c1 r1 =>
                if Ascii.eqb c1 "]" then Parsed (JArr []) r1
                else parsed_map JArr (scan_items fuel' (String c1 r1))
            | "" => DecodeError
            end
          else
            match strip_prefix "null" s with
            | Some r1 => Parsed JNull r1
            | None =>
            match strip_prefix "true" s with
            | Some r1 => Parsed (JBool true) r1
            | None =>
            match strip_prefix "false" s with
            | Some r1 => Parsed (JBool false) r1
            | None => scan_number s
            end end end
      end
  end

with scan_items (fuel : nat) (s : string) {struct fuel} : parsed (list json) :=
  match fuel with
  | O => OutOfFuel
  | S fuel' =>
      match scan_once fuel' s with
      | Parsed v r =>
          match skip_ws r with
          | String c r1 =>
              if Ascii.eqb c "]" then Parsed [v] r1
              else if Ascii.eqb c ","
              then parsed_map (cons v) (scan_items fuel' (skip_ws r1))
              else DecodeError
          | "" => DecodeError
          end
      | DecodeError => DecodeError
      | Unmodelled => Unmodelled
      | OutOfFuel => OutOfFuel
      end
  end

with scan_members (fuel : nat) (s : string) {struct fuel}
  : parsed (list (string * json)) :=
  match fuel with
  | O => OutOfFuel
  | S fuel' =>
      match scanstring s with
      | Parsed k r =>
          match skip_ws r with
          | String c r1 =>
              if Ascii.eqb c ":" then
                match scan_once fuel' (skip_ws r1) with
                | Parsed v r2 =>
                    match skip_ws r2 with
                    | String c2 r3 =>
                        if Ascii.eqb c2 "}" then Parsed [(k, v)] r3
                        else if Ascii.eqb c2 "," then
                          match skip_ws r3 with
                          | String c3 r4 =>
                              if Ascii.eqb c3 DQUOTE
                              then parsed_map (cons (k, v))
                                              (scan_members fuel' r4)
                              else DecodeError
                          | "" => DecodeError
                          end
                        else DecodeError
                    | "" => DecodeError
                    end
                | DecodeError => DecodeError
                | Unmodelled => Unmodelled
                | OutOfFuel => OutOfFuel
                end
              else DecodeError
          | "" => DecodeError
          end
      | DecodeError => DecodeError
      | Unmodelled => Unmodelled
      | OutOfFuel => OutOfFuel
      end
  end.

(** [JSONDecoder.decode]: leading whitespace, one value, trailing
    whitespace, end of text ("Extra data" otherwise).  The budget is twice
    the length of the text, which the recursion never exhausts.  Integers
    are unbounded and so is the nesting: the [ValueError] of an integer
    beyond the interpreter's digit limit and the [RecursionError] of a
    nesting beyond its recursion limit have no counterpart here. *)
Definition loads (s : string) : parsed json :=
  match scan_once (2 * String.length s + 1) (skip_ws s) with
  | Parsed v rest =>
      match skip_ws rest with
      | "" => Parsed v ""
      | String _ _ => DecodeError
      end
  | r => r
  end.

(** ** Notions used to reason about the encoder and the decoder *)

(** The text after a value written by the encoder: nothing, whitespace, a
    comma or a closing bracket. *)
Definition delimited (rest : string) : bool :=
  match rest with
  | "" => true
  | String c _ =>
      is_ws c || Ascii.eqb c "," || Ascii.eqb c "]" || Ascii.eqb c "}"
  end.

(** The first character of an encoded value. *)
Definition value_start (c : ascii) : bool :=
  Ascii.eqb c DQUOTE || Ascii.eqb c "{" || Ascii.eqb c "[" || Ascii.eqb c "n"
  || Ascii.eqb c "t" || Ascii.eqb c "f" || Ascii.eqb c "-" || is_digit c.

(** Nodes of a value, each item of a list or dict counted once more for the
    loop that visits it: the recursion budget [scan_once] needs. *)
Fixpoint size (v : json) : nat :=
  match v with
  | JArr items => S (list_sum (map (fun x => S (size x)) items))
  | JObj members => S (list_sum (map (fun kv => S (size (snd kv))) members))
  | _ => 1
  end.

(** Induction over values with the hypothesis for every item. *)
Definition json_induction (P : json -> Prop)
    (Hnull : P JNull) (Hbool : forall b, P (JBool b))
    (Hint : forall n, P (JInt n)) (Hstr : forall s, P (JStr s))
    (Harr : forall items, Forall P items -> P (JArr items))
    (Hobj : forall members, Forall (fun kv => P (snd kv)) members ->
                            P (JObj members)) :
  forall v, P v :=
  fix go (v : json) : P v :=
    match v with
    | JNull => Hnull
    | JBool b => Hbool b
    | JInt n => Hint n
    | JStr s => Hstr s
    | JArr items =>
        Harr items
          ((fix all (l : list json) : Forall P l :=
              match l with
              | [] => Stdlib.Lists.List.Forall_nil P
              | x :: l' => Stdlib.Lists.List.Forall_cons P x l' (go x) (all l')
              end) items)
    | JObj members =>
        Hobj members
          ((fix all (l : list (string * json))
              : Forall (fun kv => P (snd kv)) l :=
              match l with
              | [] => Stdlib.Lists.List.Forall_nil _
              | kv :: l' => Stdlib.Lists.List.Forall_cons _ kv l' (go (snd kv)) (all l')
              end) members)
    end.

End Json.


(* ===================================================================== *)
(** * The Python process: outcomes, values at run time, files and streams *)
(* ===================================================================== *)

Module Py.
Import Json.

(** The exceptions the program can leave uncaught. *)
Inductive exn : Type := KeyError | TypeError | AttributeError | IndexError.

(** How a piece of Python code ends: with a value, by [sys.exit(code)], by
    an exception nobody catches, or outside what the model covers. *)
Inductive outcome (A : Type) : Type :=
| Ret (a : A)
| Exit (code : Z)
| Raise (e : exn)
| NotModelled.
Arguments Ret {A} a.
Arguments Exit {A} code.
Arguments Raise {A} e.
Arguments NotModelled {A}.

Definition obind {A B : Type} (o : outcome A) (k : A -> outcome B) : outcome B :=
  match o with
  | Ret a => k a
  | Exit c => Exit c
  | Raise e => Raise e
  | NotModelled => NotModelled
  end.

(** The part of the world the program touches: the files by path, and what
    the program printed, one entry per [print] call.  A file is the text
    that reading it with the UTF-8 codec gives, so files that are not UTF-8
    are not in the model; the streams hold only the program's own [print]
    calls, not what the interpreter or [argparse] write there. *)
Record world : Type := World {
  files : gmap string string;
  stdout : list string;
  stderr : list string
}.

(** Computations: state passing over [world], with the outcome. *)
Definition M (A : Type) : Type := world -> outcome A * world.

Definition ret {A : Type} (a : A) : M A := fun w => (Ret a, w).

Definition bind {A B : Type} (m : M A) (k : A -> M B) : M B :=
  fun w =>
    match m w with
    | (Ret a, w') => k a w'
    | (Exit c, w') => (Exit c, w')
    | (Raise e, w') => (Raise e, w')
    | (NotModelled, w') => (NotModelled, w')
    end.

Definition lift {A : Type} (o : outcome A) : M A := fun w => (o, w).

Notation "'let!' x ':=' m 'in' k" := (bind m (fun x => k))
  (at level 10, x pattern, m at level 100, k at level 200,
   format "'[v' 'let!'  x  ':='  m  'in' '/' k ']'").
Notation "'do!' m 'in' k" := (bind m (fun _ => k))
  (at level 10, m at level 100, k at level 200,
   format "'[v' 'do!'  m  'in' '/' k ']'").

(** [sys.exit(code)] *)
Definition sys_exit {A : Type} (code : Z) : M A := fun w => (Exit code, w).

(** [print(line)] and [print(line, file=sys.stderr)] *)
Definition print (line : string) : M unit :=
  fun w => (Ret tt, World (files w) (stdout w ++ [line]) (stderr w)).

Definition print_err (line : string) : M unit :=
  fun w => (Ret tt, World (files w) (stdout w) (stderr w ++ [line])).

(** [os.path.exists(path)] *)
Definition path_exists (path : string) : M bool :=
  fun w => (Ret (bool_decide (is_Some (files w !! path))), w).

(** [open(path, "r").read()] of a file that exists. *)
Definition read_text (path : string) : M string :=
  fun w =>
    match files w !! path with
    | Some text => (Ret text, w)
    | None => (NotModelled, w)
    end.

(** [open(path, "w")] followed by writing [text], when every write
    succeeds: the file then holds exactly [text], whatever it held before.
    The truncation by [open] and the writes that follow are one step here; a
    write that raises part way (a string the codec cannot encode) is not
    modelled. *)
Definition write_text (path text : string) : M unit :=
  fun w => (Ret tt, World (<[path := text]> (files w)) (stdout w) (stderr w)).

(** The exit status the shell sees: 0 after a normal return, the argument
    of [sys.exit], 1 after an uncaught exception. *)
Definition exit_status {A : Type} (o : outcome A) : option Z :=
  match o with
  | Ret _ => Some 0
  | Exit c => Some c
  | Raise _ => Some 1
  | NotModelled => None
  end.

(** ** Operations on run-time values *)

(** [v == n] for an [int] [n]: [bool] is a subclass of [int]
    ([True == 1]); a string, a list, a dict or [None] never equals an
    [int]. *)
Definition py_eq_int (v : json) (n : Z) : bool :=
  match v with
  | JInt m => Z.eqb m n
  | JBool b => Z.eqb (if b then 1 else 0) n
  | _ => false
  end.

(** The items [for b in v] visits: the elements of a list, the keys of a
    dict, the characters of a string; anything else is not iterable. *)
Definition py_iter (v : json) : outcome (list json) :=
  match v with
  | JArr items => Ret items
  | JObj members => Ret (map JStr (keys members))
  | JStr s => Ret (map (fun c => JStr (chr c)) (list_ascii_of_string s))
  | _ => Raise TypeError
  end.

(** [v[k]] for a string [k]: defined on a dict that has the key. *)
Definition py_getitem (v : json) (k : string) : outcome json :=
  match v with
  | JObj members =>
      match dict_get k members with
      | Some x => Ret x
      | None => Raise KeyError
      end
  | _ => Raise TypeError
  end.

(** [v[k] = x] for a string [k]. *)
Definition py_setitem (v : json) (k : string) (x : json) : outcome json :=
  match v with
  | JObj members => Ret (JObj (dict_set k x members))
  | _ => Raise TypeError
  end.

(** [v[i]] for an index [i] that [enumerate] produced. *)
Definition py_index (v : json) (i : nat) : outcome json :=
  match v with
  | JArr items =>
      match items !! i with
      | Some x => Ret x
      | None => Raise IndexError
      end
  | JStr s =>
      match list_ascii_of_string s !! i with
      | Some c => Ret (JStr (chr c))
      | None => Raise IndexError
      end
  | JObj _ => Raise KeyError
  | _ => Raise TypeError
  end.

(** [v[i] = x] *)
Definition py_setindex (v : json) (i : nat) (x : json) : outcome json :=
  match v with
  | JArr items =>
      if bool_decide (i < length items)%nat
      then Ret (JArr (<[i := x]> items))
      else Raise IndexError
  | JObj _ => NotModelled
  | _ => Raise TypeError
  end.

(** [v.append(x)]: only a list has it. *)
Definition py_append (v : json) (x : json) : outcome json :=
  match v with
  | JArr items => Ret (JArr (items ++ [x]))
  | _ => Raise AttributeError
  end.

(** [v.pop(i)]: the removed element and what is left. *)
Definition py_pop (v : json) (i : nat) : outcome (json * json) :=
  match v with
  | JArr items =>
      match items !! i with
      | Some x => Ret (x, JArr (delete i items))
      | None => Raise IndexError
      end
  | JObj _ => Raise KeyError
  | _ => Raise AttributeError
  end.

(** [str(v)], as an f-string formats a value. *)
Definition py_str (v : json) : outcome string :=
  match v with
  | JNull => Ret "None"
  | JBool true => Ret "True"
  | JBool false => Ret "False"
  | JInt n => Ret (int_repr n)
  | JStr s => Ret s
  | _ => NotModelled
  end.

End Py.

(* ===================================================================== *)
(** * [books_crud.py] *)
(* ===================================================================== *)

Module Crud.
Import Json Py.

(** ** The command line

    [argparse.Namespace], one shape per subcommand.  The attributes of
    [add] always hold a value ([genres] a list, [in_stock] a bool); those of
    [update] other than [id] are [None] unless the option was given. *)
Record add_ns : Type := AddNs {
  add_id : Z;
  add_title : string;
  add_author : string;
  add_year : Z;
  add_genres : list string;
  add_in_stock : bool
}.

Record update_ns : Type := UpdateNs {
  upd_id : Z;
  upd_title : option string;
  upd_author : option string;
  upd_year : option Z;
  upd_genres : option (list string);
  upd_in_stock : option bool
}.

Inductive namespace : Type :=
| NsInit
| NsList (pretty : bool)
| NsGet (id : Z)
| NsAdd (args : add_ns)
| NsUpdate (args : update_ns)
| NsDelete (id : Z).

(** What the user typed, after [argparse] has split it into option
    occurrences and converted the [type=int] ones: the subcommand, and for
    each option whether it occurs and with which value.  [--genres] takes
    zero or more words, so [Some []] is [--genres] with nothing after it. *)
Record cmdline : Type := CmdLine {
  c_command : string;
  c_pretty : bool;
  c_id : option Z;
  c_title : option string;
  c_author : option string;
  c_year : option Z;
  c_genres : option (list string);
  c_in_stock : bool;
  c_out_of_stock : bool
}.

(** The value of the [in_stock] destination shared by the store-true flag
    [--in-stock] and the store-false flag [--out-of-stock] of a mutually
    exclusive group: the given default when neither occurs, no namespace
    when both do. *)
Definition stock_group {A : Type} (inject : bool -> A) (dflt : A) (c : cmdline)
  : option A :=
  match c_in_stock c, c_out_of_stock c with
  | false, false => Some dflt
  | true, false => Some (inject true)
  | false, true => Some (inject false)
  | true, true => None
  end.

Definition no_book_options (c : cmdline) : bool :=
  bool_decide (c_title c = None) && bool_decide (c_author c = None)
  && bool_decide (c_year c = None) && bool_decide (c_genres c = None)
  && negb (c_in_stock c) && negb (c_out_of_stock c).

(** [build_parser().parse_args()]: the namespace, or [None] when [argparse]
    rejects the command line (an unknown subcommand, an option the
    subcommand does not have, a required option that is missing, both stock
    flags). *)
Definition build_parser (c : cmdline) : option namespace :=
  if String.eqb (c_command c) "init" then
    if negb (c_pretty c) && bool_decide (c_id c = None) && no_book_options c
    then Some NsInit else None
  else if String.eqb (c_command c) "list" then
    if bool_decide (c_id c = None) && no_book_options c
    then Some (NsList (c_pretty c)) else None
  else if String.eqb (c_command c) "get" then
    match c_id c with
    | Some id =>
        if negb (c_pretty c) && no_book_options c then Some (NsGet id) else None
    | None => None
    end
  else if String.eqb (c_command c) "add" then
    match c_id c, c_title c, c_author c, c_year c with
    | Some id, Some title, Some author, Some year =>
        if c_pretty c then None
        else
          match stock_group (fun b => b) true c with
          | Some in_stock =>
              Some (NsAdd (AddNs id title author year
                                 (default [] (c_genres c)) in_stock))
          | None => None
          end
    | _, _, _, _ => None
    end
  else if String.eqb (c_command c) "update" then
    match c_id c with
    | Some id =>
        if c_pretty c then None
        else
          match stock_group Some None c with
          | Some in_stock =>
              Some (NsUpdate (UpdateNs id (c_title c) (c_author c) (c_year c)
                                       (c_genres c) in_stock))
          | None => None
          end
    | None => None
    end
  else if String.eqb (c_command c) "delete" then
    match c_id c with
    | Some id =>
        if negb (c_pretty c) && no_book_options c then Some (NsDelete id) else None
    | None => None
    end
  else None.

Section Store.

(** [os.environ] *)
Variable environ : gmap string string.

(** [BOOKS_FILE = os.environ.get("BOOKS_FILE", "books.json")] *)
Definition BOOKS_FILE : string := default "books.json" (environ !! "BOOKS_FILE").

(** ** The catalog store *)

Definition load_books : M json :=
  let! present := path_exists BOOKS_FILE in
  if negb present then ret (JArr [])
  else
    let! text := read_text BOOKS_FILE in
    match loads text with
    | Parsed v _ => ret v
    | DecodeError =>
        do! print_err ("Error: " +:+ BOOKS_FILE +:+ " is not valid JSON.") in
        sys_exit 1
    | Unmodelled => lift NotModelled
    | OutOfFuel => lift NotModelled
    end.

Definition save_books (books : json) : M unit :=
  write_text BOOKS_FILE (dumps (Some 2%nat) books +:+ chr LF).

(** ** Lookup by id *)

(** [any(b["id"] == book_id for b in items)]: stops at the first match, and
    an item without an ["id"] raises when the scan reaches it. *)
Fixpoint any_id_eq (items : list json) (book_id : Z) : outcome bool :=
  match items with
  | [] => Ret false
  | b :: items' =>
      obind (py_getitem b "id") (fun v =>
        if py_eq_int v book_id then Ret true else any_id_eq items' book_id)
  end.

Definition ensure_unique_id (books : json) (book_id : Z) : M unit :=
  let! dup := lift (obind (py_iter books) (fun items => any_id_eq items book_id)) in
  if (dup : bool) then
    do! print_err ("Error: A book with id " +:+ int_repr book_id
                   +:+ " already exists.") in
    sys_exit 1
  else ret tt.

(** The loop of [get_book_index] over [enumerate(items)], counting from [i]:
    the index of the first match, or [None] when the loop runs out. *)
Fixpoint first_index (items : list json) (book_id : Z) (i : nat)
  : outcome (option nat) :=
  match items with
  | [] => Ret None
  | b :: items' =>
      obind (py_getitem b "id") (fun v =>
        if py_eq_int v book_id then Ret (Some i)
        else first_index items' book_id (S i))
  end.

Definition get_book_index (books : json) (book_id : Z) : M nat :=
  let! found := lift (obind (py_iter books)
                            (fun items => first_index items book_id 0)) in
  match found with
  | Some i => ret i
  | None =>
      do! print_err ("Error: Book with id " +:+ int_repr book_id
                     +:+ " not found.") in
      sys_exit 1
  end.

(** ** The commands *)

Definition cmd_init : M unit :=
  let! present := path_exists BOOKS_FILE in
  if (present : bool) then print (BOOKS_FILE +:+ " already exists.")
  else
    do! save_books (JArr []) in
    print ("Created empty " +:+ BOOKS_FILE).

Definition cmd_list (pretty : bool) : M unit :=
  let! books := load_books in
  if pretty then print (dumps (Some 2%nat) books)
  else print (dumps None books).

Definition cmd_get (id : Z) : M unit :=
  let! books := load_books in
  let! idx := get_book_index books id in
  let! book := lift (py_index books idx) in
  print (dumps (Some 2%nat) book).

(** [x or []] *)
Definition or_empty (x : list string) : list string :=
  match x with
  | [] => []
  | _ :: _ => x
  end.

Definition str_list (l : list string) : json := JArr (map JStr l).

Definition cmd_add (args : add_ns) : M unit :=
  let! books := load_books in
  do! ensure_unique_id books (add_id args) in
  let book := JObj [ ("id", JInt (add_id args));
                     ("title", JStr (add_title args));
                     ("author", JStr (add_author args));
                     ("year", JInt (add_year args));
                     ("genres", str_list (or_empty (add_genres args)));
                     ("in_stock", JBool (add_in_stock args)) ] in
  let! books := lift (py_append books book) in
  do! save_books books in
  print ("Added book id " +:+ int_repr (add_id args)).

(** [if arg is not None: book[key] = arg] *)
Definition assign_if_given (book : json) (key : string) (arg : option json)
  : M json :=
  match arg with
  | Some x => lift (py_setitem book key x)
  | None => ret book
  end.

Definition cmd_update (args : update_ns) : M unit :=
  let! books := load_books in
  let! idx := get_book_index books (upd_id args) in
  let! book := lift (py_index books idx) in
  let! book := assign_if_given book "title" (JStr <$> upd_title args) in
  let! book := assign_if_given book "author" (JStr <$> upd_author args) in
  let! book := assign_if_given book "year" (JInt <$> upd_year args) in
  let! book := assign_if_given book "genres" (str_list <$> upd_genres args) in
  let! book := assign_if_given book "in_stock" (JBool <$> upd_in_stock args) in
  let! books := lift (py_setindex books idx book) in
  do! save_books books in
  print ("Updated book id " +:+ int_repr (upd_id args)).

Definition cmd_delete (id : Z) : M unit :=
  let! books := load_books in
  let! idx := get_book_index books id in
  let! popped := lift (py_pop books idx) in
  do! save_books (snd popped) in
  let! shown := lift (obind (py_getitem (fst popped) "id") py_str) in
  print ("Deleted book id " +:+ shown).

(** [args.func(args)] *)
Definition func (args : namespace) : M unit :=
  match args with
  | NsInit => cmd_init
  | NsList pretty => cmd_list pretty
  | NsGet id => cmd_get id
  | NsAdd a => cmd_add a
  | NsUpdate u => cmd_update u
  | NsDelete id => cmd_delete id
  end.

(** [main]: a command line [argparse] rejects ends the process with status
    2 before any command runs.  The usage and error lines [argparse] writes
    on the error stream before it exits are not modelled, nor is [-h]. *)
Definition main (c : cmdline) : M unit :=
  match build_parser c with
  | Some args => func args
  | None => sys_exit 2
  end.

End Store.

End Crud.

(* ===================================================================== *)
(** * Vocabulary of the specification *)
(* ===================================================================== *)

Module Spec.
Import Json Py Crud.

(** The six fields of a Book. *)
Definition FIELDS : list string :=
  ["id"; "title"; "author"; "year"; "genres"; "in_stock"].

(** The id of a Book: the integer under ["id"] of a dict. *)
Definition book_id (b : json) : option Z :=
  match b with
  | JObj members =>
      match dict_get "id" members with
      | Some (JInt n) => Some n
      | _ => None
      end
  | _ => None
  end.

(** A dict with an ["id"] key, which is what the id lookups can read. *)
Definition carries_id (b : json) : bool :=
  match b with
  | JObj members => bool_decide (is_Some (dict_get "id" members))
  | _ => false
  end.

(** The Book holds the id: its ["id"] equals it, in Python's sense. *)
Definition id_matches (id : Z) (b : json) : bool :=
  match b with
  | JObj members =>
      match dict_get "id" members with
      | Some v => py_eq_int v id
      | None => false
      end
  | _ => false
  end.

(** No Book of the list holds the id. *)
Definition misses (id : Z) (books : list json) : Prop :=
  Forall (fun b => carries_id b = true /\ id_matches id b = false) books.

(** The Book the lookup locates: the first one that holds the id. *)
Definition located (id : Z) (books before : list json) (d : dict)
    (after : list json) : Prop :=
  books = (before ++ JObj d :: after)%list /\ misses id before /\
  id_matches id (JObj d) = true.

(** A list of values in which every item is a dict with an integer id. *)
Definition identified (books : list json) : Prop :=
  Forall (fun b => is_Some (book_id b)) books.

(** No two Books share an id. *)
Definition unique_ids (books : list json) : Prop :=
  NoDup (map book_id books).

(** All six fields are present. *)
Definition complete (b : json) : bool :=
  match b with
  | JObj members =>
      forallb (fun k => bool_decide (is_Some (dict_get k members))) FIELDS
  | _ => false
  end.

(** The catalog in the store: what Load returns, leaving the world as it
    is. *)
Definition stored (environ : gmap string string) (w : world)
    (books : list json) : Prop :=
  load_books environ w = (Ret (JArr books), w).

(** The value an update supplies for a field, if any. *)
Definition supplied (args : update_ns) (k : string) : option json :=
  if String.eqb k "title" then JStr <$> upd_title args
  else if String.eqb k "author" then JStr <$> upd_author args
  else if String.eqb k "year" then JInt <$> upd_year args
  else if String.eqb k "genres" then str_list <$> upd_genres args
  else if String.eqb k "in_stock" then JBool <$> upd_in_stock args
  else None.

Definition set_if_given (k : string) (arg : option json) (d : dict) : dict :=
  match arg with
  | Some x => dict_set k x d
  | None => d
  end.

(** The fields of a Book after the assignments of an update, in the order
    the command makes them. *)
Definition updated (args : update_ns) (d : dict) : dict :=
  set_if_given "in_stock" (JBool <$> upd_in_stock args)
    (set_if_given "genres" (str_list <$> upd_genres args)
       (set_if_given "year" (JInt <$> upd_year args)
          (set_if_given "author" (JStr <$> upd_author args)
             (set_if_given "title" (JStr <$> upd_title args) d)))).

(** The Book [add] builds. *)
Definition new_book (args : add_ns) : json :=
  JObj [ ("id", JInt (add_id args));
         ("title", JStr (add_title args));
         ("author", JStr (add_author args));
         ("year", JInt (add_year args));
         ("genres", str_list (or_empty (add_genres args)));
         ("in_stock", JBool (add_in_stock args)) ].

(** The messages of the program. *)
Definition msg_malformed (environ : gmap string string) : string :=
  "Error: " +:+ BOOKS_FILE environ +:+ " is not valid JSON.".
Definition msg_duplicate (id : Z) : string :=
  "Error: A book with id " +:+ int_repr id +:+ " already exists.".
Definition msg_not_found (id : Z) : string :=
  "Error: Book with id " +:+ int_repr id +:+ " not found.".

(** The world after one more line on a stream. *)
Definition with_stdout (w : world) (line : string) : world :=
  World (files w) (stdout w ++ [line]) (stderr w).

Definition with_stderr (w : world) (line : string) : world :=
  World (files w) (stdout w) (stderr w ++ [line]).

(** The world after the store file was rewritten with a catalog. *)
Definition with_store (environ : gmap string string) (w : world)
    (books : json) : world :=
  World (<[BOOKS_FILE environ := dumps (Some 2%nat) books +:+ chr LF]> (files w))
        (stdout w) (stderr w).

End Spec.

(* ===================================================================== *)
(** * Sample catalogs and command lines *)
(* ===================================================================== *)

Module Examples.
Import Json Py Crud Spec.

(** No [BOOKS_FILE] in the environment: the store is [books.json]. *)
Definition no_env : gmap string string := ∅.

(** A world whose store file holds the given text, with nothing printed. *)
Definition world_with (text : string) : world :=
  World {[ "books.json" := text ]} [] [].

(** A world whose store file is what Save writes for the catalog. *)
Definition store_of (books : list json) : world :=
  world_with (dumps (Some 2%nat) (JArr books) +:+ chr LF).

(** A world without a store file. *)
Definition no_store : world := World ∅ [] [].

Definition dune : json :=
  JObj [ ("id", JInt 1); ("title", JStr "Dune"); ("author", JStr "Herbert");
         ("year", JInt 1965); ("genres", JArr []); ("in_stock", JBool true) ].

(** A second Book under the id of [dune]. *)
Definition twin : json :=
  JObj [ ("id", JInt 1); ("title", JStr "Emma"); ("author", JStr "Austen");
         ("year", JInt 1815); ("genres", JArr []); ("in_stock", JBool true) ].

Definition ulysses : json :=
  JObj [ ("id", JInt 2); ("title", JStr "Ulysses"); ("author", JStr "Joyce");
         ("year", JInt 1922); ("genres", JArr []); ("in_stock", JBool true) ].

(** A Book as a hand-written store may hold it: no [genres], no
    [in_stock]. *)
Definition sparse : json :=
  JObj [ ("id", JInt 1); ("title", JStr "Dune"); ("author", JStr "Herbert");
         ("year", JInt 1965) ].

Definition add_ulysses : add_ns := AddNs 2 "Ulysses" "Joyce" 1922 [] true.

(** [add --id 1 --title Dune --author Herbert --year 1965] *)
Definition cli_add_dune : cmdline :=
  CmdLine "add" false (Some 1) (Some "Dune") (Some "Herbert") (Some 1965)
          None false false.

(** [delete --id 1] *)
Definition cli_delete_1 : cmdline :=
  CmdLine "delete" false (Some 1) None None None None false false.

(** [update --id 1 --title Arrakis] *)
Definition retitle : update_ns :=
  UpdateNs 1 (Some "Arrakis") None None None None.


(** Store files that are valid JSON but not a list of Books: a list
    holding a string, a top-level object, a list holding an object without
    an id. *)
Definition text_stray_string : string := dumps None (JArr [JStr "x"]).
Definition text_top_object : string := dumps None (JObj [("title", JStr "Dune")]).
Definition text_no_id : string := dumps None (JArr [JObj [("title", JStr "Dune")]]).

End Examples.

(* ===================================================================== *)
(** * Ways a command ends without success *)
(* ===================================================================== *)

Module Endings.
Import Json Py Crud Spec.

(** A run that did not return normally, as the model sees it: one error
    line and [sys.exit(1)], an uncaught exception of the id scan or of
    [append], or a run the model does not follow.  In the first two the
    program neither wrote a file nor printed on standard output.  The third
    only records where the model stops (a store outside the fragment of
    [Json]): the world it carries is the one the run started from, and says
    nothing of what the program did. *)
Inductive fails (w : world) : outcome unit * world -> Prop :=
| fails_reported (line : string) : fails w (Exit 1, with_stderr w line)
| fails_raised (e : exn) : fails w (Raise e, w)
| fails_unmodelled : fails w (NotModelled, w).


End Endings.

(* ===================================================================== *)
(** * Facts about the [json] model *)
(* ===================================================================== *)

Module JsonFacts.
Import Json.

Ltac ascii_cases c := destruct c as [[] [] [] [] [] [] [] []].

(** ** Text *)

Lemma sapp_cons (c : ascii) (s r : string) : String c s +:+ r = String c (s +:+ r).
Proof. reflexivity. Qed.

Lemma sapp_nil_l (s : string) : "" +:+ s = s.
Proof. reflexivity. Qed.

Lemma sapp_nil_r (s : string) : s +:+ "" = s.
Proof. induction s as [|c s IH]; [reflexivity|]. rewrite sapp_cons, IH. reflexivity. Qed.

Lemma sapp_assoc (a b c : string) : (a +:+ b) +:+ c = a +:+ (b +:+ c).
Proof.
  induction a as [|x a IH]; [reflexivity|].
  rewrite !sapp_cons, IH. reflexivity.
Qed.

Lemma length_sapp (a b : string) :
  String.length (a +:+ b) = (String.length a + String.length b)%nat.
Proof.
  induction a as [|x a IH]; [reflexivity|].
  rewrite sapp_cons. simpl. rewrite IH. reflexivity.
Qed.

Ltac norm_app :=
  repeat (rewrite sapp_cons || rewrite sapp_nil_l || rewrite sapp_assoc).

(** ** Whitespace *)

Lemma skip_ws_head (c : ascii) (r : string) :
  is_ws c = false -> skip_ws (String c r) = String c r.
Proof. intros H. simpl. rewrite H. reflexivity. Qed.

Lemma skip_ws_space (r : string) : skip_ws (String " " r) = skip_ws r.
Proof. reflexivity. Qed.

Lemma skip_ws_spaces (n : nat) (r : string) :
  skip_ws (spaces n +:+ r) = skip_ws r.
Proof. induction n as [|n IH]; [reflexivity|]. simpl spaces. rewrite sapp_cons. exact IH. Qed.

Lemma skip_ws_newline_indent (indent : option nat) (level : nat) (r : string) :
  skip_ws (newline_indent indent level +:+ r) = skip_ws r.
Proof.
  destruct indent as [n|]; [|reflexivity].
  unfold newline_indent. rewrite sapp_cons. apply skip_ws_spaces.
Qed.

Lemma skip_ws_length (s : string) :
  (String.length (skip_ws s) <= String.length s)%nat.
Proof.
  induction s as [|c s IH]; simpl; [lia|].
  destruct (is_ws c); simpl; lia.
Qed.

(** ** Strings: [scanstring] undoes [encode_basestring] *)

Lemma scanstring_escape_char (c : ascii) (r : string) :
  scanstring (escape_char c +:+ r) = parsed_map (String c) (scanstring r).
Proof. ascii_cases c; reflexivity. Qed.

Lemma scanstring_escape (s rest : string) :
  scanstring (escape s +:+ String DQUOTE rest) = Parsed s rest.
Proof.
  induction s as [|c s IH]; [reflexivity|].
  simpl escape. rewrite sapp_assoc, scanstring_escape_char, IH. reflexivity.
Qed.

(** ** Numbers: [scan_number] undoes [int_repr] *)

Lemma delimited_not_digit (c : ascii) (r : string) :
  delimited (String c r) = true -> digit c = None.
Proof. ascii_cases c; vm_compute; congruence. Qed.

Lemma delimited_not_float (rest : string) :
  delimited rest = true -> starts_frac rest || starts_exp rest = false.
Proof.
  destruct rest as [|c r]; [reflexivity|].
  ascii_cases c; vm_compute; try congruence; destruct r; reflexivity.
Qed.

Lemma take_digits_uint (u : uint) (rest : string) :
  delimited rest = true ->
  take_digits (NilEmpty.string_of_uint u +:+ rest) = (u, rest).
Proof.
  intros Hd. induction u as [|u IH|u IH|u IH|u IH|u IH|u IH|u IH|u IH|u IH|u IH];
    simpl NilEmpty.string_of_uint; rewrite ?sapp_cons;
    try (simpl take_digits; rewrite IH; reflexivity).
  rewrite sapp_nil_l. destruct rest as [|c r]; [reflexivity|].
  simpl. rewrite (delimited_not_digit c r Hd). reflexivity.
Qed.

Lemma match_integer_uint (u : uint) (rest : string) :
  delimited rest = true -> u <> Nil -> (forall u', u <> D0 u') ->
  match_integer (NilEmpty.string_of_uint u +:+ rest) = Some (u, rest).
Proof.
  intros Hd Hnil Hzero.
  destruct u as [|u|u|u|u|u|u|u|u|u|u]; try congruence;
    try (exfalso; eapply Hzero; reflexivity);
    simpl NilEmpty.string_of_uint; rewrite sapp_cons;
    unfold match_integer; simpl Ascii.eqb; simpl is_digit; cbv iota;
    simpl take_digits; rewrite (take_digits_uint u rest Hd); reflexivity.
Qed.

Lemma to_uint_head (p : positive) (u : uint) : Pos.to_uint p <> D0 u.
Proof.
  intros H.
  pose proof (DecimalPos.Unsigned.to_of (Pos.to_uint p)) as Hn.
  rewrite DecimalPos.Unsigned.of_to in Hn. simpl N.to_uint in Hn.
  rewrite H, DecimalFacts.unorm_D0 in Hn.
  unfold unorm in Hn.
  destruct (nzhead u) eqn:Hz; try (symmetry in Hn; exact (DecimalFacts.nzhead_nonzero _ _ (eq_trans Hz Hn))).
  injection Hn as ->. exact (DecimalPos.Unsigned.to_uint_nonzero p H).
Qed.

Lemma string_of_uint_to_uint (p : positive) :
  NilZero.string_of_uint (Pos.to_uint p) = NilEmpty.string_of_uint (Pos.to_uint p).
Proof.
  pose proof (DecimalPos.Unsigned.to_uint_nonnil p) as H.
  destruct (Pos.to_uint p); [congruence|reflexivity..].
Qed.

Lemma string_of_uint_head (u : uint) (rest : string) :
  u <> Nil ->
  exists c r, NilEmpty.string_of_uint u +:+ rest = String c r /\ is_digit c = true.
Proof.
  intros H. destruct u; try congruence; simpl; rewrite sapp_cons; eauto.
Qed.

Lemma scan_number_int_repr (n : Z) (rest : string) :
  delimited rest = true ->
  scan_number (int_repr n +:+ rest) = Parsed (JInt n) rest.
Proof.
  intros Hd. unfold int_repr, scan_number.
  destruct n as [|p|p]; simpl Z.to_int; simpl NilZero.string_of_int.
  - rewrite sapp_cons, sapp_nil_l. simpl.
    rewrite (delimited_not_float rest Hd). reflexivity.
  - rewrite string_of_uint_to_uint.
    destruct (string_of_uint_head (Pos.to_uint p) rest
                (DecimalPos.Unsigned.to_uint_nonnil p)) as (c & r & E & Hc).
    rewrite E. replace (Ascii.eqb c "-") with false
      by (revert Hc; clear; ascii_cases c; vm_compute; congruence).
    rewrite <- E, match_integer_uint;
      auto using DecimalPos.Unsigned.to_uint_nonnil, to_uint_head.
    rewrite (delimited_not_float rest Hd).
    f_equal. f_equal. exact (DecimalZ.of_to (Zpos p)).
  - rewrite string_of_uint_to_uint, sapp_cons. simpl Ascii.eqb. cbv iota.
    rewrite match_integer_uint;
      auto using DecimalPos.Unsigned.to_uint_nonnil, to_uint_head.
    rewrite (delimited_not_float rest Hd).
    f_equal. f_equal. exact (DecimalZ.of_to (Zneg p)).
Qed.

(** ** Values: [scan_once] undoes [encode] *)

Lemma int_repr_head (n : Z) :
  exists c r, int_repr n = String c r /\
              (Ascii.eqb c "-" || is_digit c = true).
Proof.
  unfold int_repr. destruct n as [|p|p]; simpl Z.to_int; simpl NilZero.string_of_int.
  - eauto.
  - rewrite string_of_uint_to_uint.
    destruct (string_of_uint_head (Pos.to_uint p) ""
                (DecimalPos.Unsigned.to_uint_nonnil p)) as (c & r & E & Hc).
    rewrite sapp_nil_r in E. exists c, r. rewrite E, Hc.
    split; [reflexivity|apply orb_true_r].
  - eauto.
Qed.

Lemma encode_head (indent : option nat) (level : nat) (v : json) :
  exists c r, encode indent level v = String c r /\ value_start c = true.
Proof.
  destruct v as [|[]|n|s|[|x xs]|[|[k x] ms]]; simpl encode;
    rewrite ?sapp_cons; eauto.
  destruct (int_repr_head n) as (c & r & -> & Hc). exists c, r.
  split; [reflexivity|]. revert Hc. clear. ascii_cases c; vm_compute; congruence.
Qed.

Lemma value_start_not_ws (c : ascii) :
  value_start c = true ->
  is_ws c = false /\ Ascii.eqb c "]" = false /\ Ascii.eqb c "}" = false.
Proof. ascii_cases c; vm_compute; intuition congruence. Qed.

Lemma skip_ws_encode (indent : option nat) (level : nat) (v : json) (r : string) :
  skip_ws (encode indent level v +:+ r) = encode indent level v +:+ r.
Proof.
  destruct (encode_head indent level v) as (c & t & -> & Hc).
  rewrite sapp_cons. apply skip_ws_head, value_start_not_ws, Hc.
Qed.

Lemma number_head (c : ascii) :
  Ascii.eqb c "-" || is_digit c = true ->
  Ascii.eqb c DQUOTE = false /\ Ascii.eqb c "{" = false /\
  Ascii.eqb c "[" = false /\ Ascii.eqb "n" c = false /\
  Ascii.eqb "t" c = false /\ Ascii.eqb "f" c = false.
Proof. ascii_cases c; vm_compute; intuition congruence. Qed.

Lemma scan_once_number (fuel : nat) (c : ascii) (r : string) :
  Ascii.eqb c "-" || is_digit c = true ->
  scan_once (S fuel) (String c r) = scan_number (String c r).
Proof.
  intros H. destruct (number_head c H) as (H1 & H2 & H3 & H4 & H5 & H6).
  cbn [scan_once strip_prefix]. rewrite H1, H2, H3, H4, H5, H6. reflexivity.
Qed.

(** The separator between two items is a comma and then whitespace. *)
Lemma separator_shape (indent : option nat) (level : nat) (r : string) :
  exists w, item_separator indent +:+ newline_indent indent level +:+ r
            = String "," w /\ skip_ws w = skip_ws r.
Proof.
  destruct indent as [n|].
  - exists (newline_indent (Some n) level +:+ r). split; [reflexivity|].
    apply skip_ws_newline_indent.
  - exists (String " " r). split; reflexivity.
Qed.

(** What closes a list or a dict is delimited text. *)
Lemma delimited_close (indent : option nat) (level : nat) (c : ascii) (r : string) :
  Ascii.eqb c "]" || Ascii.eqb c "}" = true ->
  delimited (newline_indent indent level +:+ String c r) = true.
Proof.
  intros H. destruct indent as [n|]; [reflexivity|].
  unfold newline_indent. rewrite sapp_nil_l. unfold delimited.
  revert H. clear. ascii_cases c; vm_compute; congruence.
Qed.

Lemma py_dict_acc (pairs acc : list (string * json)) :
  NoDup (keys (acc ++ pairs)%list) ->
  fold_left (fun d kv => dict_set (fst kv) (snd kv) d) pairs acc
  = (acc ++ pairs)%list.
Proof.
  revert acc. induction pairs as [|[k v] pairs IH]; intros acc Hnd.
  - rewrite app_nil_r. reflexivity.
  - simpl fold_left.
    assert (Hset : dict_set k v acc = (acc ++ [(k, v)])%list).
    { unfold keys in Hnd. rewrite map_app in Hnd. simpl in Hnd.
      apply NoDup_app in Hnd as (_ & Hdisj & _).
      assert (Hk : k ∉ map fst acc).
      { intros Hin. apply (Hdisj k Hin). left. }
      clear -Hk. induction acc as [|[k' v'] acc IH]; [reflexivity|].
      simpl. destruct (String.eqb_spec k' k) as [->|Hne].
      - exfalso. apply Hk. left.
      - rewrite IH; [reflexivity|]. intros Hin. apply Hk. right. exact Hin. }
    rewrite Hset, IH; rewrite <- app_assoc; [reflexivity|exact Hnd].
Qed.

Lemma py_dict_nodup (members : list (string * json)) :
  NoDup (keys members) -> py_dict members = members.
Proof. intros H. unfold py_dict. rewrite py_dict_acc; [reflexivity|exact H]. Qed.

Lemma wf_arr (items : list json) : wf (JArr items) -> Forall wf items.
Proof.
  unfold wf. simpl. intros H. apply Forall_forall. intros x Hx.
  rewrite forallb_forall in H. apply H. apply list_elem_of_In. exact Hx.
Qed.

Lemma wf_obj (members : list (string * json)) :
  wf (JObj members) ->
  NoDup (keys members) /\ Forall (fun kv => wf (snd kv)) members.
Proof.
  unfold wf. simpl. intros H. apply andb_true_iff in H as [Hk Hv]. split.
  - apply bool_decide_eq_true in Hk. exact Hk.
  - apply Forall_forall. intros x Hx.
    rewrite forallb_forall in Hv. apply Hv. apply list_elem_of_In. exact Hx.
Qed.

Section RoundTrip.

Variable indent : option nat.

Let enc (level : nat) (v : json) : string := encode indent level v.
Let sep (level : nat) : string :=
  item_separator indent +:+ newline_indent indent level.
Let member (level : nat) (kv : string * json) : string :=
  encode_basestring (fst kv) +:+ key_separator +:+ encode indent level (snd kv).

(** What [scan_once] is expected to do on every encoded item of a list. *)
Let reads (v : json) : Prop :=
  wf v -> forall (level fuel : nat) (rest : string),
    (size v <= fuel)%nat -> delimited rest = true ->
    scan_once fuel (encode indent level v +:+ rest) = Parsed v rest.

Lemma scan_items_join (level : nat) (rest : string) (items : list json) :
  Forall reads items -> Forall wf items -> items <> [] ->
  forall fuel,
    (list_sum (map (fun x => S (size x)) items) <= fuel)%nat ->
    scan_items fuel
      (join (sep (S level)) (map (enc (S level)) items)
       +:+ newline_indent indent level +:+ String "]" rest)
    = Parsed items rest.
Proof.
  induction items as [|x xs IH]; [congruence|].
  intros Hr Hwf _ fuel Hfuel.
  apply Forall_cons in Hr as [Hx Hxs]. apply Forall_cons in Hwf as [Wx Wxs].
  simpl in Hfuel. destruct fuel as [|fuel]; [lia|].
  destruct xs as [|y ys].
  - simpl join. simpl scan_items. unfold enc.
    rewrite (Hx Wx); [|simpl in Hfuel; lia|apply delimited_close; reflexivity].
    rewrite skip_ws_newline_indent. reflexivity.
  - change (join (sep (S level)) (map (enc (S level)) (x :: y :: ys)))
      with (enc (S level) x +:+ sep (S level)
            +:+ join (sep (S level)) (map (enc (S level)) (y :: ys))).
    rewrite !sapp_assoc. unfold sep at 1. rewrite sapp_assoc.
    destruct (separator_shape indent (S level)
                (join (sep (S level)) (map (enc (S level)) (y :: ys))
                 +:+ newline_indent indent level +:+ String "]" rest))
      as (w & -> & Hw).
    simpl scan_items. unfold enc at 1.
    rewrite (Hx Wx); [|lia|reflexivity].
    simpl skip_ws. simpl Ascii.eqb. cbv iota. rewrite Hw.
    assert (Hskip : forall t,
      skip_ws (join (sep (S level)) (map (enc (S level)) (y :: ys)) +:+ t)
      = join (sep (S level)) (map (enc (S level)) (y :: ys)) +:+ t).
    { intros t. simpl map. simpl join. destruct (map (enc (S level)) ys).
      - apply skip_ws_encode.
      - rewrite sapp_assoc. apply skip_ws_encode. }
    rewrite Hskip, IH; [reflexivity|assumption|assumption|congruence|lia].
Qed.

Lemma join_member_head (level : nat) (k : string) (x : json)
    (ms : list (string * json)) (t : string) :
  exists after,
    join (sep (S level)) (map (member (S level)) ((k, x) :: ms)) +:+ t
    = String DQUOTE (escape k +:+ String DQUOTE
                      (String ":" (String " " (enc (S level) x +:+ after))))
    /\ after = match ms with
               | [] => t
               | _ :: _ => sep (S level)
                           +:+ join (sep (S level)) (map (member (S level)) ms)
                           +:+ t
               end.
Proof.
  destruct ms as [|m ms]; eexists; (split; [|reflexivity]).
  - simpl map. simpl join. unfold member at 1, encode_basestring, key_separator, chr.
    simpl fst. simpl snd.
    norm_app. reflexivity.
  - change (join (sep (S level)) (map (member (S level)) ((k, x) :: m :: ms)))
      with (member (S level) (k, x) +:+ sep (S level)
            +:+ join (sep (S level)) (map (member (S level)) (m :: ms))).
    unfold member at 1, encode_basestring, key_separator, chr.
    simpl fst. simpl snd.
    norm_app. reflexivity.
Qed.

Lemma scan_members_join (level : nat) (rest : string)
    (members : list (string * json)) :
  Forall (fun kv => reads (snd kv)) members ->
  Forall (fun kv => wf (snd kv)) members ->
  forall (k : string) (x : json) (ms : list (string * json)) (text : string),
    members = (k, x) :: ms ->
    join (sep (S level)) (map (member (S level)) members)
    +:+ newline_indent indent level +:+ String "}" rest
    = String DQUOTE text ->
    forall fuel,
      (list_sum (map (fun kv => S (size (snd kv))) members) <= fuel)%nat ->
      scan_members fuel text = Parsed members rest.
Proof.
  induction members as [|kv members IH]; [congruence|].
  intros Hr Hwf k x ms text [= -> ->] Htext fuel Hfuel.
  apply Forall_cons in Hr as [Hx Hxs]. apply Forall_cons in Hwf as [Wx Wxs].
  simpl in Hx, Wx, Hfuel. destruct fuel as [|fuel]; [lia|].
  destruct (join_member_head level k x ms
              (newline_indent indent level +:+ String "}" rest))
    as (after & E & Hafter).
  rewrite E in Htext. injection Htext as <-.
  cbn [scan_members]. rewrite scanstring_escape.
  rewrite (skip_ws_head ":") by reflexivity.
  rewrite Ascii.eqb_refl, skip_ws_space. unfold enc. rewrite skip_ws_encode.
  destruct ms as [|[k' y] ms'].
  - subst after.
    rewrite (Hx Wx); [|lia|apply delimited_close; reflexivity].
    rewrite skip_ws_newline_indent, (skip_ws_head "}") by reflexivity.
    rewrite Ascii.eqb_refl. reflexivity.
  - subst after. unfold sep at 1. rewrite sapp_assoc.
    destruct (separator_shape indent (S level)
                (join (sep (S level)) (map (member (S level)) ((k', y) :: ms'))
                 +:+ newline_indent indent level +:+ String "}" rest))
      as (w & -> & Hw).
    rewrite (Hx Wx); [|lia|reflexivity].
    rewrite (skip_ws_head ",") by reflexivity.
    change (Ascii.eqb "," "}") with false. rewrite Ascii.eqb_refl. cbv iota.
    rewrite Hw.
    destruct (join_member_head level k' y ms'
                (newline_indent indent level +:+ String "}" rest))
      as (after' & E' & _).
    rewrite E'. rewrite (skip_ws_head DQUOTE) by reflexivity.
    rewrite Ascii.eqb_refl.
    rewrite (IH Hxs Wxs k' y ms' _ eq_refl E'); [reflexivity|lia].
Qed.

(** Reading back what the encoder wrote, inside any delimited context and
    with any budget of at least [size v]. *)
Lemma scan_once_encode (v : json) : reads v.
Proof.
  induction v as [|b|n|s|items IH|members IH] using json_induction;
    intros Hwf level fuel rest Hfuel Hd;
    (destruct fuel as [|fuel]; [simpl in Hfuel; lia|]).
  - reflexivity.
  - destruct b; reflexivity.
  - simpl encode. destruct (int_repr_head n) as (c & r & E & Hc).
    rewrite E, sapp_cons, scan_once_number by exact Hc.
    rewrite <- sapp_cons, <- E. apply scan_number_int_repr, Hd.
  - simpl encode. unfold encode_basestring, chr.
    norm_app. cbn [scan_once]. rewrite Ascii.eqb_refl, scanstring_escape.
    reflexivity.
  - destruct items as [|x xs]; [reflexivity|].
    change (encode indent level (JArr (x :: xs)))
      with ("[" +:+ newline_indent indent (S level)
            +:+ join (sep (S level)) (map (enc (S level)) (x :: xs))
            +:+ newline_indent indent level +:+ "]").
    norm_app. cbn [scan_once]. change (Ascii.eqb "[" DQUOTE) with false.
    change (Ascii.eqb "[" "{") with false. rewrite Ascii.eqb_refl. cbv iota.
    rewrite skip_ws_newline_indent.
    assert (Hitems := scan_items_join level rest (x :: xs) IH (wf_arr _ Hwf)).
    assert (Hhead : exists c t,
      join (sep (S level)) (map (enc (S level)) (x :: xs))
      +:+ newline_indent indent level +:+ String "]" rest = String c t
      /\ value_start c = true).
    { destruct (encode_head indent (S level) x) as (c & t & E & Hc).
      simpl map. simpl join. unfold enc. rewrite E.
      destruct (map _ xs); rewrite ?sapp_assoc, sapp_cons; eauto. }
    destruct Hhead as (c & t & E & Hc). rewrite E in *.
    destruct (value_start_not_ws c Hc) as (Hws & Hclose & _).
    rewrite skip_ws_head by exact Hws. rewrite Hclose.
    rewrite Hitems; [reflexivity|congruence|simpl in Hfuel |- *; lia].
  - destruct members as [|[k x] ms]; [reflexivity|].
    change (encode indent level (JObj ((k, x) :: ms)))
      with ("{" +:+ newline_indent indent (S level)
            +:+ join (sep (S level)) (map (member (S level)) ((k, x) :: ms))
            +:+ newline_indent indent level +:+ "}").
    norm_app. cbn [scan_once]. change (Ascii.eqb "{" DQUOTE) with false.
    rewrite Ascii.eqb_refl. cbv iota. rewrite skip_ws_newline_indent.
    destruct (wf_obj _ Hwf) as [Hnd Hvals].
    destruct (join_member_head level k x ms
                (newline_indent indent level +:+ String "}" rest))
      as (after & E & _).
    rewrite E, (skip_ws_head DQUOTE) by reflexivity.
    change (Ascii.eqb DQUOTE "}") with false. rewrite Ascii.eqb_refl. cbv iota.
    rewrite (scan_members_join level rest _ IH Hvals k x ms _ eq_refl E);
      [|simpl in Hfuel |- *; lia].
    simpl parsed_map. rewrite py_dict_nodup by exact Hnd. reflexivity.
Qed.

End RoundTrip.

(** [scan_once] undoes [encode], stated with the section's abbreviations
    unfolded. *)
Lemma scan_once_dumps (indent : option nat) (level fuel : nat) (v : json)
    (rest : string) :
  wf v -> (size v <= fuel)%nat -> delimited rest = true ->
  scan_once fuel (encode indent level v +:+ rest) = Parsed v rest.
Proof. intros Hwf Hfuel Hd. exact (scan_once_encode indent v Hwf level fuel rest Hfuel Hd). Qed.

(** ** The decoder only builds well-formed values *)

Lemma wf_arr_intro (items : list json) : Forall wf items -> wf (JArr items).
Proof.
  intros H. unfold wf. simpl. apply forallb_forall. intros x Hx.
  rewrite Forall_forall in H. apply H, list_elem_of_In, Hx.
Qed.

Lemma wf_obj_intro (members : list (string * json)) :
  NoDup (keys members) -> Forall (fun kv => wf (snd kv)) members ->
  wf (JObj members).
Proof.
  intros Hk Hv. unfold wf. simpl. apply andb_true_iff. split.
  - apply bool_decide_eq_true. exact Hk.
  - apply forallb_forall. intros x Hx.
    rewrite Forall_forall in Hv. apply Hv, list_elem_of_In, Hx.
Qed.

Lemma keys_dict_set (k : string) (v : json) (d : dict) :
  keys (dict_set k v d) = if bool_decide (k ∈ keys d) then keys d
                          else (keys d ++ [k])%list.
Proof.
  induction d as [|[k' v'] d IH]; [reflexivity|].
  change (keys ((k', v') :: d)) with (k' :: keys d).
  simpl dict_set. destruct (String.eqb_spec k' k) as [->|Hne].
  - rewrite bool_decide_eq_true_2 by apply list_elem_of_here. reflexivity.
  - change (keys ((k', v') :: dict_set k v d)) with (k' :: keys (dict_set k v d)).
    rewrite IH. case_bool_decide as Hin.
    + rewrite bool_decide_eq_true_2 by (apply list_elem_of_further, Hin).
      reflexivity.
    + rewrite bool_decide_eq_false_2; [reflexivity|].
      intros [Heq|Hin']%elem_of_cons; [congruence|contradiction].
Qed.

Lemma dict_set_nodup (k : string) (v : json) (d : dict) :
  NoDup (keys d) -> NoDup (keys (dict_set k v d)).
Proof.
  intros H. rewrite keys_dict_set. case_bool_decide as Hin; [exact H|].
  apply NoDup_app. repeat split; [exact H| |apply NoDup_singleton].
  intros x Hx ->%list_elem_of_singleton. contradiction.
Qed.

Lemma dict_set_values (P : json -> Prop) (k : string) (v : json) (d : dict) :
  P v -> Forall (fun kv => P (snd kv)) d ->
  Forall (fun kv => P (snd kv)) (dict_set k v d).
Proof.
  intros Hv. induction d as [|[k' v'] d IH]; intros Hd.
  - repeat constructor. exact Hv.
  - apply Forall_cons in Hd as [Hh Ht]. simpl.
    destruct (String.eqb k' k); constructor; auto.
Qed.

Lemma py_dict_wf (pairs : list (string * json)) :
  Forall (fun kv => wf (snd kv)) pairs -> wf (JObj (py_dict pairs)).
Proof.
  intros H. unfold py_dict.
  assert (Hgen : forall acc : dict,
    NoDup (keys acc) -> Forall (fun kv => wf (snd kv)) acc ->
    wf (JObj (fold_left (fun d kv => dict_set (fst kv) (snd kv) d) pairs acc))).
  { induction pairs as [|[k v] pairs IH]; intros acc Hk Hv.
    - apply wf_obj_intro; assumption.
    - apply Forall_cons in H as [Hh Ht]. simpl. apply IH; [exact Ht| |].
      + apply dict_set_nodup, Hk.
      + apply dict_set_values; assumption. }
  apply Hgen; constructor.
Qed.

Ltac break_parse H :=
  repeat match type of H with
  | Parsed _ _ = Parsed _ _ => injection H as <- <-
  | parsed_map _ ?x = Parsed _ _ => destruct x eqn:?; simpl in H
  | context [match ?x with _ => _ end] => destruct x eqn:?
  end; try discriminate.

Lemma scan_number_wf (s r : string) (v : json) :
  scan_number s = Parsed v r -> wf v.
Proof.
  unfold scan_number. intros H. break_parse H. reflexivity.
Qed.

Lemma scan_wf (fuel : nat) :
  (forall s v r, scan_once fuel s = Parsed v r -> wf v) /\
  (forall s vs r, scan_items fuel s = Parsed vs r -> Forall wf vs) /\
  (forall s ps r, scan_members fuel s = Parsed ps r ->
                  Forall (fun kv => wf (snd kv)) ps).
Proof.
  induction fuel as [|fuel (IHv & IHi & IHm)];
    [repeat split; intros; discriminate|].
  repeat split.
  - intros s v r H. cbn [scan_once] in H. break_parse H;
      try reflexivity; eauto using scan_number_wf, py_dict_wf, wf_arr_intro.
  - intros s vs r H. cbn [scan_items] in H. break_parse H;
      repeat constructor; eauto.
  - intros s ps r H. cbn [scan_members] in H. break_parse H;
      repeat constructor; simpl; eauto.
Qed.

Lemma loads_wf (s : string) (v : json) (r : string) :
  loads s = Parsed v r -> wf v.
Proof.
  unfold loads. intros H.
  destruct (scan_once _ _) as [v' r'| | |] eqn:E; try discriminate.
  destruct (skip_ws r'); [|discriminate]. injection H as <- <-.
  eapply scan_wf, E.
Qed.


(** ** [loads] undoes [dumps] *)

Lemma join_length {A : Type} (m : A -> nat) (f : A -> string) (sep : string)
    (l : list A) :
  Forall (fun x => (m x <= String.length (f x))%nat) l ->
  (1 <= String.length sep)%nat -> l <> [] ->
  (list_sum (map (fun x => S (m x)) l) <= S (String.length (join sep (map f l))))%nat.
Proof.
  intros H Hsep. induction l as [|x l IH]; [congruence|]. intros _.
  apply Forall_cons in H as [Hx Hl]. destruct l as [|y l].
  - simpl. lia.
  - change (join sep (map f (x :: y :: l)))
      with (f x +:+ sep +:+ join sep (map f (y :: l))).
    rewrite !length_sapp.
    change (list_sum (map (fun x => S (m x)) (x :: y :: l)))
      with (S (m x) + list_sum (map (fun x => S (m x)) (y :: l)))%nat.
    specialize (IH Hl ltac:(congruence)). lia.
Qed.

Lemma item_separator_length (indent : option nat) (level : nat) :
  (1 <= String.length (item_separator indent +:+ newline_indent indent level))%nat.
Proof. destruct indent; rewrite length_sapp; simpl; lia. Qed.

Lemma size_le_length (indent : option nat) (v : json) :
  forall level, (size v <= String.length (encode indent level v))%nat.
Proof.
  induction v as [|b|n|s|items IH|members IH] using json_induction; intros level.
  - simpl. lia.
  - destruct b; simpl; lia.
  - destruct (int_repr_head n) as (c & r & E & _). simpl. rewrite E. simpl. lia.
  - simpl. lia.
  - destruct items as [|x xs]; [simpl; lia|].
    change (encode indent level (JArr (x :: xs)))
      with ("[" +:+ newline_indent indent (S level)
            +:+ join (item_separator indent +:+ newline_indent indent (S level))
                     (map (encode indent (S level)) (x :: xs))
            +:+ newline_indent indent level +:+ "]").
    rewrite !length_sapp.
    pose proof (join_length size (encode indent (S level))
                  (item_separator indent +:+ newline_indent indent (S level))
                  (x :: xs)) as Hj.
    change (size (JArr (x :: xs)))
      with (S (list_sum (map (fun x => S (size x)) (x :: xs)))).
    change (String.length "[") with 1%nat. change (String.length "]") with 1%nat.
    assert (list_sum (map (fun x => S (size x)) (x :: xs))
            <= S (String.length
                    (join (item_separator indent +:+ newline_indent indent (S level))
                          (map (encode indent (S level)) (x :: xs)))))%nat; [|lia].
    apply Hj; [|apply item_separator_length|congruence].
    eapply Forall_impl; [exact IH|]. intros y Hy. apply Hy.
  - destruct members as [|[k x] ms]; [simpl; lia|].
    change (encode indent level (JObj ((k, x) :: ms)))
      with ("{" +:+ newline_indent indent (S level)
            +:+ join (item_separator indent +:+ newline_indent indent (S level))
                     (map (fun kv => encode_basestring (fst kv) +:+ key_separator
                                     +:+ encode indent (S level) (snd kv))
                          ((k, x) :: ms))
            +:+ newline_indent indent level +:+ "}").
    rewrite !length_sapp.
    pose proof (join_length (fun kv => size (snd kv))
                  (fun kv => encode_basestring (fst kv) +:+ key_separator
                             +:+ encode indent (S level) (snd kv))
                  (item_separator indent +:+ newline_indent indent (S level))
                  ((k, x) :: ms)) as Hj.
    change (size (JObj ((k, x) :: ms)))
      with (S (list_sum (map (fun kv => S (size (snd kv))) ((k, x) :: ms)))).
    change (String.length "{") with 1%nat. change (String.length "}") with 1%nat.
    assert (list_sum (map (fun kv => S (size (snd kv))) ((k, x) :: ms))
            <= S (String.length
                    (join (item_separator indent +:+ newline_indent indent (S level))
                          (map (fun kv => encode_basestring (fst kv) +:+ key_separator
                                          +:+ encode indent (S level) (snd kv))
                               ((k, x) :: ms)))))%nat; [|lia].
    apply Hj; [|apply item_separator_length|congruence].
    eapply Forall_impl; [exact IH|]. intros kv Hkv. simpl.
    rewrite !length_sapp. specialize (Hkv (S level)). lia.
Qed.

(** A document written by [dumps], followed by whitespace, decodes to the
    value that was written. *)
Lemma loads_dumps (indent : option nat) (v : json) (tail : string) :
  wf v -> skip_ws tail = "" ->
  loads (dumps indent v +:+ tail) = Parsed v "".
Proof.
  intros Hwf Htail. unfold loads, dumps.
  rewrite skip_ws_encode, scan_once_dumps.
  - rewrite Htail. reflexivity.
  - exact Hwf.
  - rewrite length_sapp. pose proof (size_le_length indent v 0). lia.
  - destruct tail as [|c r]; [reflexivity|].
    simpl in Htail. unfold delimited. destruct (is_ws c); [reflexivity|discriminate].
Qed.


(** ** The recursion budget of [loads] is never exhausted *)

Ltac break_fuel H :=
  repeat match type of H with
  | parsed_map _ ?x = OutOfFuel => destruct x eqn:?; simpl in H
  | context [match ?x with _ => _ end] => destruct x eqn:?
  end; try discriminate.

Lemma scanstring_shorter (n : nat) (s r a : string) :
  (String.length s <= n)%nat -> scanstring s = Parsed a r ->
  (String.length r < String.length s)%nat.
Proof.
  revert s r a. induction n as [|n IH]; intros s r a Hn H;
    (destruct s as [|c s]; [discriminate|]); simpl in Hn; [lia|].
  cbn [scanstring] in H. break_parse H; simpl in *;
    try lia;
    match goal with
    | E : scanstring ?t = Parsed _ _ |- _ =>
        apply IH in E; [simpl in *; lia|simpl in *; lia]
    end.
Qed.

Lemma scanstring_fuel (n : nat) (s : string) :
  (String.length s <= n)%nat -> scanstring s <> OutOfFuel.
Proof.
  revert s. induction n as [|n IH]; intros s Hn H;
    (destruct s as [|c s]; [discriminate|]); simpl in Hn; [lia|].
  cbn [scanstring] in H. break_fuel H;
    match goal with
    | E : scanstring ?t = OutOfFuel |- _ =>
        apply IH in E; [exact E|simpl in *; lia]
    end.
Qed.

Lemma take_digits_length (s r : string) (u : uint) :
  take_digits s = (u, r) -> (String.length r <= String.length s)%nat.
Proof.
  revert u r. induction s as [|c s IH]; intros u r H; simpl in H.
  - injection H as <- <-. simpl. lia.
  - destruct (digit c).
    + destruct (take_digits s) as [u' r'] eqn:E. injection H as <- <-.
      specialize (IH _ _ eq_refl). simpl. lia.
    + injection H as <- <-. lia.
Qed.

Lemma match_integer_shorter (s r : string) (u : uint) :
  match_integer s = Some (u, r) -> (String.length r < String.length s)%nat.
Proof.
  unfold match_integer. destruct s as [|c s]; [discriminate|].
  destruct (Ascii.eqb c "0").
  - intros [= <- <-]. simpl. lia.
  - unfold is_digit. simpl take_digits. destruct (digit c); [|discriminate].
    destruct (take_digits s) as [u' r'] eqn:E. intros [= <- <-].
    apply take_digits_length in E. simpl. lia.
Qed.

Lemma scan_number_shorter (s r : string) (v : json) :
  scan_number s = Parsed v r -> (String.length r < String.length s)%nat.
Proof.
  unfold scan_number.
  destruct (match s with
            | "" => (false, s)
            | String c r0 => if Ascii.eqb c "-" then (true, r0) else (false, s)
            end) as [neg s1] eqn:E.
  assert (Hs1 : (String.length s1 <= String.length s)%nat).
  { destruct s as [|c s']; [injection E as <- <-; lia|].
    destruct (Ascii.eqb c "-"); injection E as <- <-; simpl; lia. }
  destruct (match_integer s1) as [[u rest]|] eqn:M.
  - apply match_integer_shorter in M.
    destruct (starts_frac rest || starts_exp rest); [discriminate|].
    intros [= <- <-]. lia.
  - destruct (_ || _); discriminate.
Qed.

Lemma scan_number_fuel (s : string) : scan_number s <> OutOfFuel.
Proof. unfold scan_number. intros H. break_fuel H. Qed.

Lemma strip_prefix_length (p s r : string) :
  strip_prefix p s = Some r ->
  String.length s = (String.length p + String.length r)%nat.
Proof.
  revert s. induction p as [|a p IH]; intros s H; simpl in H.
  - injection H as <-. reflexivity.
  - destruct s as [|b s]; [discriminate|]. destruct (Ascii.eqb a b); [|discriminate].
    simpl. rewrite (IH _ H). reflexivity.
Qed.

Lemma skip_ws_cons_length (s r : string) (c : ascii) :
  skip_ws s = String c r -> (String.length r < String.length s)%nat.
Proof. intros H. pose proof (skip_ws_length s) as L. rewrite H in L. simpl in L. lia. Qed.

Lemma scan_shorter (fuel : nat) :
  (forall s v r, scan_once fuel s = Parsed v r ->
                 (String.length r < String.length s)%nat) /\
  (forall s vs r, scan_items fuel s = Parsed vs r ->
                  (String.length r < String.length s)%nat) /\
  (forall s ps r, scan_members fuel s = Parsed ps r ->
                  (String.length r < String.length s)%nat).
Proof.
  induction fuel as [|fuel (IHv & IHi & IHm)];
    [repeat split; intros; discriminate|].
  repeat split.
  - intros s v r H. cbn [scan_once] in H. break_parse H;
      repeat match goal with
      | E : skip_ws _ = String _ _ |- _ => apply skip_ws_cons_length in E
      | E : scanstring _ = Parsed _ _ |- _ =>
          eapply scanstring_shorter in E; [|reflexivity]
      | E : strip_prefix _ _ = Some _ |- _ => apply strip_prefix_length in E
      | E : scan_number _ = Parsed _ _ |- _ => apply scan_number_shorter in E
      | E : scan_items _ _ = Parsed _ _ |- _ => apply IHi in E
      | E : scan_members _ _ = Parsed _ _ |- _ => apply IHm in E
      end; simpl in *; lia.
  - intros s vs r H. cbn [scan_items] in H. break_parse H;
      repeat match goal with
      | E : skip_ws _ = String _ _ |- _ => apply skip_ws_cons_length in E
      | E : scan_once _ _ = Parsed _ _ |- _ => apply IHv in E
      | E : scan_items _ ?t = Parsed _ _ |- _ =>
          apply IHi in E; pose proof (skip_ws_length t)
      end; simpl in *; try lia.
    match goal with
    | E : (String.length _ < String.length (skip_ws ?t))%nat |- _ =>
        pose proof (skip_ws_length t); lia
    end.
  - intros s ps r H. cbn [scan_members] in H. break_parse H;
      repeat match goal with
      | E : skip_ws _ = String _ _ |- _ => apply skip_ws_cons_length in E
      | E : scanstring _ = Parsed _ _ |- _ =>
          eapply scanstring_shorter in E; [|reflexivity]
      | E : scan_once _ (skip_ws ?t) = Parsed _ _ |- _ =>
          apply IHv in E; pose proof (skip_ws_length t)
      | E : scan_members _ _ = Parsed _ _ |- _ => apply IHm in E
      end; simpl in *; lia.
Qed.


Lemma scan_fuel (fuel : nat) :
  (forall s, (2 * String.length s + 1 <= fuel)%nat ->
             scan_once fuel s <> OutOfFuel) /\
  (forall s, (2 * String.length s + 2 <= fuel)%nat ->
             scan_items fuel s <> OutOfFuel) /\
  (forall s, (2 * String.length s + 2 <= fuel)%nat ->
             scan_members fuel s <> OutOfFuel).
Proof.
  induction fuel as [|fuel (IHv & IHi & IHm)];
    [repeat split; intros; lia|].
  destruct (scan_shorter fuel) as (Sv & Si & Sm).
  repeat split.
  - intros s Hf H. cbn [scan_once] in H. break_fuel H;
      repeat match goal with
      | E : skip_ws _ = String _ _ |- _ => apply skip_ws_cons_length in E
      | E : scanstring _ = OutOfFuel |- _ =>
          exact (scanstring_fuel _ _ (le_n _) E)
      | E : scan_number _ = OutOfFuel |- _ => exact (scan_number_fuel _ E)
      | E : scan_items _ _ = OutOfFuel |- _ => apply IHi in E; [exact E|]
      | E : scan_members _ _ = OutOfFuel |- _ => apply IHm in E; [exact E|]
      end; simpl in *; lia.
  - intros s Hf H. cbn [scan_items] in H. break_fuel H;
      repeat match goal with
      | E : skip_ws _ = String _ _ |- _ => apply skip_ws_cons_length in E
      | E : scan_once _ _ = Parsed _ _ |- _ => apply Sv in E
      | E : scan_once _ _ = OutOfFuel |- _ => apply IHv in E; [exact E|]
      | E : scan_items _ (skip_ws ?t) = OutOfFuel |- _ =>
          apply IHi in E; [exact E|pose proof (skip_ws_length t)]
      end; simpl in *; lia.
  - intros s Hf H. cbn [scan_members] in H. break_fuel H;
      repeat match goal with
      | E : skip_ws _ = String _ _ |- _ => apply skip_ws_cons_length in E
      | E : scanstring _ = Parsed _ _ |- _ =>
          eapply scanstring_shorter in E; [|reflexivity]
      | E : scanstring _ = OutOfFuel |- _ =>
          exact (scanstring_fuel _ _ (le_n _) E)
      | E : scan_once _ (skip_ws ?t) = Parsed _ _ |- _ =>
          apply Sv in E; pose proof (skip_ws_length t)
      | E : scan_once _ (skip_ws ?t) = OutOfFuel |- _ =>
          apply IHv in E; [exact E|pose proof (skip_ws_length t)]
      | E : scan_members _ _ = OutOfFuel |- _ => apply IHm in E; [exact E|]
      end; simpl in *; lia.
Qed.

(** [loads] always answers: a value, a decode error, or a document outside
    the modelled fragment. *)
Lemma loads_fuel (s : string) : loads s <> OutOfFuel.
Proof.
  unfold loads. intros H.
  destruct (scan_once _ _) as [v r| | |] eqn:E; try discriminate.
  - destruct (skip_ws r); discriminate.
  - revert E. apply scan_fuel. pose proof (skip_ws_length s). lia.
Qed.

End JsonFacts.

(* ===================================================================== *)
(** * Facts about the catalog store and the commands *)
(* ===================================================================== *)

Module CrudFacts.
Import Json Py Crud Spec JsonFacts.

Section Facts.

Variable environ : gmap string string.

Abbreviation FILE := (BOOKS_FILE environ).

(** ** The monad *)

Lemma bind_ret {A B : Type} (m : M A) (k : A -> M B) (w w' : world) (a : A) :
  m w = (Ret a, w') -> bind m k w = k a w'.
Proof. intros H. unfold bind. rewrite H. reflexivity. Qed.

Lemma bind_exit {A B : Type} (m : M A) (k : A -> M B) (w w' : world) (c : Z) :
  m w = (Exit c, w') -> bind m k w = (Exit c, w').
Proof. intros H. unfold bind. rewrite H. reflexivity. Qed.

Lemma world_eta (w : world) : World (files w) (stdout w) (stderr w) = w.
Proof. destruct w; reflexivity. Qed.

(** ** Load and Save *)

Lemma load_books_absent (w : world) :
  files w !! FILE = None -> load_books environ w = (Ret (JArr []), w).
Proof.
  intros H. unfold load_books, bind, path_exists. rewrite H.
  rewrite bool_decide_eq_false_2 by (intros [x Hx]; discriminate). reflexivity.
Qed.

Lemma load_books_present (w : world) (text : string) :
  files w !! FILE = Some text ->
  load_books environ w =
    match loads text with
    | Parsed v _ => (Ret v, w)
    | DecodeError =>
        (Exit 1, with_stderr w ("Error: " +:+ FILE +:+ " is not valid JSON."))
    | Unmodelled => (NotModelled, w)
    | OutOfFuel => (NotModelled, w)
    end.
Proof.
  intros H. unfold load_books, bind, path_exists, read_text. rewrite H.
  rewrite bool_decide_eq_true_2 by eauto. simpl. rewrite H.
  destruct (loads text); reflexivity.
Qed.

(** Load changes nothing, and what it returns is a well-formed value. *)
Lemma load_books_ret (w w' : world) (v : json) :
  load_books environ w = (Ret v, w') -> w' = w /\ wf v.
Proof.
  destruct (files w !! FILE) as [text|] eqn:E.
  - rewrite (load_books_present w text E).
    destruct (loads text) as [v' r| | |] eqn:L; try discriminate.
    intros [= <- <-]. split; [reflexivity|]. eapply loads_wf, L.
  - rewrite (load_books_absent w E). intros [= <- <-]. split; reflexivity.
Qed.

Lemma stored_wf (w : world) (books : list json) :
  stored environ w books -> Forall wf books.
Proof. intros H. apply load_books_ret in H as [_ H]. apply wf_arr, H. Qed.

Lemma save_books_eq (w : world) (v : json) :
  save_books environ v w = (Ret tt, with_store environ w v).
Proof. reflexivity. Qed.

(** Load after Save returns what was saved. *)
Lemma load_saved (w : world) (v : json) :
  wf v ->
  load_books environ (with_store environ w v)
  = (Ret v, with_store environ w v).
Proof.
  intros Hwf.
  rewrite (load_books_present _ (dumps (Some 2%nat) v +:+ chr LF)).
  - rewrite loads_dumps; [reflexivity|exact Hwf|reflexivity].
  - unfold with_store. simpl. apply lookup_insert_eq.
Qed.

(** The streams do not matter to Load. *)
Lemma stored_with_stdout (w : world) (line : string) (books : list json) :
  stored environ w books -> stored environ (with_stdout w line) books.
Proof.
  unfold stored. intros H.
  destruct (files w !! FILE) as [text|] eqn:E.
  - rewrite (load_books_present w text E) in H.
    rewrite (load_books_present (with_stdout w line) text E).
    destruct (loads text); try discriminate. injection H as ->. reflexivity.
  - rewrite (load_books_absent w E) in H. injection H as <-.
    apply load_books_absent. exact E.
Qed.


(** ** Lookup by id *)

Lemma getitem_id (b : json) :
  carries_id b = true ->
  exists d v, b = JObj d /\ dict_get "id" d = Some v /\
              py_getitem b "id" = Ret v.
Proof.
  destruct b as [| | | | |d]; try discriminate. simpl. intros H.
  apply bool_decide_eq_true in H as [v Hv]. exists d, v.
  rewrite Hv. auto.
Qed.

Lemma id_matches_getitem (id : Z) (b : json) (v : json) :
  py_getitem b "id" = Ret v -> id_matches id b = py_eq_int v id.
Proof.
  destruct b as [| | | | |d]; try discriminate. simpl.
  destruct (dict_get "id" d); [|discriminate]. intros [= ->]. reflexivity.
Qed.

Lemma any_id_eq_misses (books : list json) (id : Z) :
  misses id books -> any_id_eq books id = Ret false.
Proof.
  induction 1 as [|b books [Hc Hm] _ IH]; [reflexivity|].
  destruct (getitem_id b Hc) as (d & v & -> & Hv & Hg).
  simpl any_id_eq. rewrite Hv. simpl obind.
  rewrite <- (id_matches_getitem id _ v Hg), Hm. exact IH.
Qed.

Lemma any_id_eq_located (books before after : list json) (d : dict) (id : Z) :
  located id books before d after -> any_id_eq books id = Ret true.
Proof.
  intros (-> & Hb & Hm). induction Hb as [|b before [Hc Hn] _ IH].
  - simpl in Hm |- *. destruct (dict_get "id" d); [|discriminate].
    simpl. rewrite Hm. reflexivity.
  - destruct (getitem_id b Hc) as (d' & v & -> & Hv & Hg).
    change ((JObj d' :: before) ++ JObj d :: after)%list
      with (JObj d' :: (before ++ JObj d :: after))%list.
    simpl any_id_eq. rewrite Hv. simpl obind.
    rewrite <- (id_matches_getitem id _ v Hg), Hn. exact IH.
Qed.

Lemma first_index_misses (books : list json) (id : Z) (i : nat) :
  misses id books -> first_index books id i = Ret None.
Proof.
  intros H. revert i. induction H as [|b books [Hc Hm] _ IH]; intros i;
    [reflexivity|].
  destruct (getitem_id b Hc) as (d & v & -> & Hv & Hg).
  simpl first_index. rewrite Hv. simpl obind.
  rewrite <- (id_matches_getitem id _ v Hg), Hm. apply IH.
Qed.

Lemma first_index_located (books before after : list json) (d : dict)
    (id : Z) (i : nat) :
  located id books before d after ->
  first_index books id i = Ret (Some (i + length before)%nat).
Proof.
  intros (-> & Hb & Hm). revert i.
  induction Hb as [|b before [Hc Hn] _ IH]; intros i.
  - simpl in Hm |- *. destruct (dict_get "id" d); [|discriminate].
    simpl. rewrite Hm. do 2 f_equal. lia.
  - destruct (getitem_id b Hc) as (d' & v & -> & Hv & Hg).
    change ((JObj d' :: before) ++ JObj d :: after)%list
      with (JObj d' :: (before ++ JObj d :: after))%list.
    simpl first_index. rewrite Hv. simpl obind.
    rewrite <- (id_matches_getitem id _ v Hg), Hn, IH.
    do 2 f_equal. simpl. lia.
Qed.

(** On a list whose items all carry an id, the scan either runs out or
    locates a Book. *)
Lemma lookup_cases (books : list json) (id : Z) :
  Forall (fun b => carries_id b = true) books ->
  misses id books \/
  exists before d after, located id books before d after.
Proof.
  induction 1 as [|b books Hc _ IH]; [left; constructor|].
  destruct (id_matches id b) eqn:Hm.
  - right. destruct (getitem_id b Hc) as (d & v & -> & _).
    exists [], d, books. repeat split; [constructor|exact Hm].
  - destruct IH as [IH|(before & d & after & -> & Hb & Hd)].
    + left. constructor; auto.
    + right. exists (b :: before), d, after.
      repeat split; [constructor; auto|exact Hd].
Qed.

Lemma ensure_unique_id_misses (books : list json) (id : Z) (w : world) :
  misses id books ->
  ensure_unique_id (JArr books) id w = (Ret tt, w).
Proof.
  intros H. unfold ensure_unique_id, bind, lift. simpl.
  rewrite (any_id_eq_misses books id H). reflexivity.
Qed.

Lemma ensure_unique_id_located (books before after : list json) (d : dict)
    (id : Z) (w : world) :
  located id books before d after ->
  ensure_unique_id (JArr books) id w
  = (Exit 1, with_stderr w (msg_duplicate id)).
Proof.
  intros H. unfold ensure_unique_id, bind, lift. simpl.
  rewrite (any_id_eq_located books before after d id H). reflexivity.
Qed.

Lemma get_book_index_misses (books : list json) (id : Z) (w : world) :
  misses id books ->
  get_book_index (JArr books) id w
  = (Exit 1, with_stderr w (msg_not_found id)).
Proof.
  intros H. unfold get_book_index, bind, lift. simpl.
  rewrite (first_index_misses books id 0 H). reflexivity.
Qed.

Lemma get_book_index_located (books before after : list json) (d : dict)
    (id : Z) (w : world) :
  located id books before d after ->
  get_book_index (JArr books) id w = (Ret (length before), w).
Proof.
  intros H. unfold get_book_index, bind, lift. simpl.
  rewrite (first_index_located books before after d id 0 H). reflexivity.
Qed.


(** ** What each command does *)

Ltac step H := rewrite (bind_ret _ _ _ _ _ H).

Lemma cmd_add_fresh (w : world) (books : list json) (args : add_ns) :
  stored environ w books -> misses (add_id args) books ->
  cmd_add environ args w
  = (Ret tt,
     with_stdout (with_store environ w (JArr (books ++ [new_book args])))
                 ("Added book id " +:+ int_repr (add_id args))).
Proof.
  intros Hs Hm. unfold cmd_add. step Hs.
  step (ensure_unique_id_misses books (add_id args) w Hm). reflexivity.
Qed.

Lemma cmd_add_duplicate (w : world) (books before after : list json)
    (d : dict) (args : add_ns) :
  stored environ w books -> located (add_id args) books before d after ->
  cmd_add environ args w
  = (Exit 1, with_stderr w (msg_duplicate (add_id args))).
Proof.
  intros Hs Hl. unfold cmd_add. step Hs.
  apply bind_exit. eapply ensure_unique_id_located, Hl.
Qed.

Lemma cmd_get_missing (w : world) (books : list json) (id : Z) :
  stored environ w books -> misses id books ->
  cmd_get environ id w = (Exit 1, with_stderr w (msg_not_found id)).
Proof.
  intros Hs Hm. unfold cmd_get. step Hs.
  apply bind_exit, get_book_index_misses, Hm.
Qed.

Lemma cmd_get_located (w : world) (books before after : list json)
    (d : dict) (id : Z) :
  stored environ w books -> located id books before d after ->
  cmd_get environ id w
  = (Ret tt, with_stdout w (dumps (Some 2%nat) (JObj d))).
Proof.
  intros Hs Hl. unfold cmd_get. step Hs.
  step (get_book_index_located books before after d id w Hl).
  destruct Hl as (-> & _ & _). unfold bind, lift, py_index.
  rewrite list_lookup_middle by reflexivity. reflexivity.
Qed.

Lemma cmd_update_missing (w : world) (books : list json) (args : update_ns) :
  stored environ w books -> misses (upd_id args) books ->
  cmd_update environ args w
  = (Exit 1, with_stderr w (msg_not_found (upd_id args))).
Proof.
  intros Hs Hm. unfold cmd_update. step Hs.
  apply bind_exit, get_book_index_misses, Hm.
Qed.

Lemma assign_if_given_dict (d : dict) (k : string) (arg : option json)
    (w : world) :
  assign_if_given (JObj d) k arg w = (Ret (JObj (set_if_given k arg d)), w).
Proof. destruct arg; reflexivity. Qed.

Lemma cmd_update_located (w : world) (books before after : list json)
    (d : dict) (args : update_ns) :
  stored environ w books -> located (upd_id args) books before d after ->
  cmd_update environ args w
  = (Ret tt,
     with_stdout
       (with_store environ w (JArr (before ++ JObj (updated args d) :: after)))
       ("Updated book id " +:+ int_repr (upd_id args))).
Proof.
  intros Hs Hl. unfold cmd_update. step Hs.
  step (get_book_index_located books before after d (upd_id args) w Hl).
  destruct Hl as (-> & _ & _).
  assert (Hidx : lift (py_index (JArr (before ++ JObj d :: after)) (length before)) w
                 = (Ret (JObj d), w)).
  { unfold lift, py_index. rewrite list_lookup_middle by reflexivity. reflexivity. }
  step Hidx. do 5 (erewrite bind_ret by apply assign_if_given_dict).
  fold (updated args d).
  assert (Hset : lift (py_setindex (JArr (before ++ JObj d :: after))
                                   (length before) (JObj (updated args d))) w
                 = (Ret (JArr (before ++ JObj (updated args d) :: after)), w)).
  { unfold lift, py_setindex.
    rewrite bool_decide_eq_true_2 by (rewrite length_app; simpl; lia).
    rewrite insert_app_r_alt by lia. rewrite Nat.sub_diag. reflexivity. }
  step Hset. reflexivity.
Qed.

Lemma cmd_delete_missing (w : world) (books : list json) (id : Z) :
  stored environ w books -> misses id books ->
  cmd_delete environ id w = (Exit 1, with_stderr w (msg_not_found id)).
Proof.
  intros Hs Hm. unfold cmd_delete. step Hs.
  apply bind_exit, get_book_index_misses, Hm.
Qed.

(** The id of a located Book is an [int] or a [bool], which an f-string
    can show. *)
Lemma located_shown (id : Z) (d : dict) :
  id_matches id (JObj d) = true ->
  exists shown, obind (py_getitem (JObj d) "id") py_str = Ret shown /\
    (forall n, dict_get "id" d = Some (JInt n) -> shown = int_repr id).
Proof.
  simpl. destruct (dict_get "id" d) as [v|]; [|discriminate].
  destruct v as [|[]|n| | |]; try discriminate; simpl; intros H;
    eexists; (split; [reflexivity|]); intros m [= E]; try discriminate.
  apply Z.eqb_eq in H. congruence.
Qed.

Lemma cmd_delete_located (w : world) (books before after : list json)
    (d : dict) (id : Z) :
  stored environ w books -> located id books before d after ->
  exists shown,
    cmd_delete environ id w
    = (Ret tt,
       with_stdout (with_store environ w (JArr (before ++ after)))
                   ("Deleted book id " +:+ shown)) /\
    (forall n, dict_get "id" d = Some (JInt n) -> shown = int_repr id).
Proof.
  intros Hs Hl. destruct (located_shown id d (proj2 (proj2 Hl))) as (shown & Hsh & Hint).
  exists shown. split; [|exact Hint]. unfold cmd_delete. step Hs.
  step (get_book_index_located books before after d id w Hl).
  destruct Hl as (-> & _ & _).
  assert (Hpop : lift (py_pop (JArr (before ++ JObj d :: after)) (length before)) w
                 = (Ret (JObj d, JArr (before ++ after)), w)).
  { unfold lift, py_pop. rewrite list_lookup_middle by reflexivity.
    rewrite delete_middle. reflexivity. }
  step Hpop. simpl snd. simpl fst. step (save_books_eq w (JArr (before ++ after))).
  unfold bind, lift. rewrite Hsh. reflexivity.
Qed.


(** ** The store after a command *)

Lemma stored_with_stderr (w : world) (line : string) (books : list json) :
  stored environ w books -> stored environ (with_stderr w line) books.
Proof.
  unfold stored. intros H.
  destruct (files w !! FILE) as [text|] eqn:E.
  - rewrite (load_books_present w text E) in H.
    rewrite (load_books_present (with_stderr w line) text E).
    destruct (loads text); try discriminate. injection H as ->. reflexivity.
  - rewrite (load_books_absent w E) in H. injection H as <-.
    apply load_books_absent. exact E.
Qed.

(** After a command saved a catalog and printed its confirmation, the
    store holds that catalog. *)
Lemma stored_saved (w : world) (line : string) (books : list json) :
  Forall wf books ->
  stored environ (with_stdout (with_store environ w (JArr books)) line) books.
Proof.
  intros H. apply stored_with_stdout. unfold stored.
  apply load_saved, wf_arr_intro, H.
Qed.

Lemma stored_absent (w : world) (books : list json) :
  files w !! FILE = None -> stored environ w books -> books = [].
Proof.
  intros E H. unfold stored in H. rewrite (load_books_absent w E) in H.
  congruence.
Qed.

(** ** Dicts under assignment *)

Lemma dict_get_set_eq (k : string) (v : json) (d : dict) :
  dict_get k (dict_set k v d) = Some v.
Proof.
  induction d as [|[k' v'] d IH]; simpl.
  - rewrite String.eqb_refl. reflexivity.
  - destruct (String.eqb k' k) eqn:E; simpl; rewrite E; [reflexivity|exact IH].
Qed.

Lemma dict_get_set_ne (k k' : string) (v : json) (d : dict) :
  k' <> k -> dict_get k (dict_set k' v d) = dict_get k d.
Proof.
  intros Hne. induction d as [|[k0 v0] d IH]; simpl.
  - destruct (String.eqb_spec k' k); [contradiction|reflexivity].
  - destruct (String.eqb_spec k0 k') as [->|Hk0]; simpl.
    + destruct (String.eqb_spec k' k); [contradiction|reflexivity].
    + destruct (String.eqb k0 k); [reflexivity|exact IH].
Qed.

Lemma dict_get_set_if_given (k k' : string) (arg : option json) (d : dict) :
  dict_get k (set_if_given k' arg d)
  = if String.eqb k k' then from_option Some (dict_get k d) arg
    else dict_get k d.
Proof.
  destruct arg as [x|]; simpl.
  - destruct (String.eqb_spec k k') as [->|Hne].
    + apply dict_get_set_eq.
    + apply dict_get_set_ne. congruence.
  - destruct (String.eqb k k'); reflexivity.
Qed.


Lemma set_if_given_wf (k : string) (arg : option json) (d : dict) :
  from_option wf True arg -> wf (JObj d) -> wf (JObj (set_if_given k arg d)).
Proof.
  destruct arg as [x|]; simpl; [|auto]. intros Hx Hd.
  apply wf_obj in Hd as [Hk Hv]. apply wf_obj_intro.
  - apply dict_set_nodup, Hk.
  - apply dict_set_values; assumption.
Qed.

Lemma str_list_wf (l : list string) : wf (str_list l).
Proof.
  unfold str_list. apply wf_arr_intro, Forall_forall.
  intros x [s [-> _]]%list_elem_of_fmap. reflexivity.
Qed.

Lemma updated_wf (args : update_ns) (d : dict) :
  wf (JObj d) -> wf (JObj (updated args d)).
Proof.
  intros H. unfold updated.
  repeat apply set_if_given_wf; try exact H.
  - destruct (upd_in_stock args); simpl; reflexivity || exact I.
  - destruct (upd_genres args); simpl; [apply str_list_wf|exact I].
  - destruct (upd_year args); simpl; reflexivity || exact I.
  - destruct (upd_author args); simpl; reflexivity || exact I.
  - destruct (upd_title args); simpl; reflexivity || exact I.
Qed.

Lemma new_book_wf (args : add_ns) : wf (new_book args).
Proof.
  unfold new_book. apply wf_obj_intro.
  - apply (bool_decide_eq_true_1 _). reflexivity.
  - repeat constructor. apply str_list_wf.
Qed.

(** What an update leaves in each field. *)
Lemma updated_get (args : update_ns) (d : dict) (k : string) :
  dict_get k (updated args d)
  = from_option Some (dict_get k d) (supplied args k).
Proof.
  unfold updated, supplied. rewrite !dict_get_set_if_given.
  destruct (String.eqb_spec k "title") as [->|];
    [simpl; destruct (upd_title args); reflexivity|].
  destruct (String.eqb_spec k "author") as [->|];
    [simpl; destruct (upd_author args); reflexivity|].
  destruct (String.eqb_spec k "year") as [->|];
    [simpl; destruct (upd_year args); reflexivity|].
  destruct (String.eqb_spec k "genres") as [->|];
    [simpl; destruct (upd_genres args); reflexivity|].
  destruct (String.eqb_spec k "in_stock") as [->|];
    [simpl; destruct (upd_in_stock args); reflexivity|].
  reflexivity.
Qed.


Lemma updated_complete (args : update_ns) (d : dict) :
  complete (JObj d) = true -> complete (JObj (updated args d)) = true.
Proof.
  unfold complete. rewrite !forallb_forall. intros H k Hk.
  specialize (H k Hk). apply bool_decide_eq_true in H as [v Hv].
  apply bool_decide_eq_true. rewrite updated_get, Hv.
  destruct (supplied args k); simpl; eauto.
Qed.

Lemma complete_carries_id (b : json) : complete b = true -> carries_id b = true.
Proof.
  destruct b as [| | | | |d]; try discriminate. unfold complete, FIELDS. simpl.
  intros H. apply andb_true_iff in H as [H _]. exact H.
Qed.

(** For Books with integer ids, holding an id is having it. *)
Lemma identified_matches (id : Z) (b : json) :
  is_Some (book_id b) ->
  carries_id b = true /\ (id_matches id b = true <-> book_id b = Some id).
Proof.
  destruct b as [| | | | |d]; simpl; try (intros [x Hx]; discriminate).
  destruct (dict_get "id" d) as [[| |n| | |]|]; try (intros [x Hx]; discriminate).
  intros _. split; [reflexivity|]. simpl. rewrite Z.eqb_eq.
  split; congruence.
Qed.

Lemma identified_carries (books : list json) :
  identified books -> Forall (fun b => carries_id b = true) books.
Proof.
  intros Hi. eapply Forall_impl; [exact Hi|].
  intros b H. apply (identified_matches 0 b H).
Qed.

Lemma misses_not_in (id : Z) (books : list json) :
  identified books -> misses id books -> Some id ∉ map book_id books.
Proof.
  intros Hi Hm Hin. apply list_elem_of_fmap in Hin as (b & Hb & Hin).
  unfold misses, identified in *. rewrite Forall_forall in Hi, Hm.
  destruct (Hm b Hin) as [_ Hno].
  destruct (identified_matches id b (Hi b Hin)) as [_ Hiff].
  symmetry in Hb. apply Hiff in Hb. congruence.
Qed.

Lemma located_in (id : Z) (books before after : list json) (d : dict) :
  identified books -> located id books before d after ->
  Some id ∈ map book_id books.
Proof.
  intros Hi (-> & _ & Hm). apply list_elem_of_fmap. exists (JObj d). split.
  - symmetry. apply (identified_matches id (JObj d)); [|exact Hm].
    unfold identified in Hi. rewrite Forall_forall in Hi.
    apply Hi. set_solver.
  - set_solver.
Qed.

End Facts.
End CrudFacts.

(* ===================================================================== *)
(** * The properties of the specification *)
(* ===================================================================== *)

Module Claims.
Import Json Py Crud Spec Examples JsonFacts CrudFacts.

(** ** Uniqueness of ids (C1) *)

(** C1, as stated, fails on a store that already holds two Books under one
    id: Load accepts it, the uniqueness check of [add] only compares the new
    id, so adding id 2 succeeds and the two Books with id 1 are still
    there. *)
Lemma add_keeps_twins :
  cmd_add no_env add_ulysses (store_of [dune; twin])
  = (Ret tt,
     with_stdout (with_store no_env (store_of [dune; twin])
                             (JArr [dune; twin; ulysses]))
                 "Added book id 2")
  /\ stored no_env
       (with_stdout (with_store no_env (store_of [dune; twin])
                                (JArr [dune; twin; ulysses]))
                    "Added book id 2")
       [dune; twin; ulysses]
  /\ ~ unique_ids [dune; twin; ulysses].
Proof.
  split; [vm_compute; reflexivity|]. split; [vm_compute; reflexivity|].
  apply (bool_decide_eq_false_1 _). vm_compute. reflexivity.
Qed.

(** C1 (amended): on a stored catalog of Books with integer ids, a
    successful add leaves a stored catalog whose ids are pairwise distinct
    provided they were before; and when a Book already has the given id,
    add reports the duplicate on the error stream, exits with status 1 and
    leaves the files as they were. *)
Theorem add_unique_ids (environ : gmap string string) (w : world)
    (books : list json) (args : add_ns) :
  stored environ w books -> identified books ->
  (unique_ids books ->
   forall w', cmd_add environ args w = (Ret tt, w') ->
     exists books', stored environ w' books' /\ unique_ids books') /\
  (Some (add_id args) ∈ map book_id books ->
   cmd_add environ args w
   = (Exit 1, with_stderr w (msg_duplicate (add_id args)))
   /\ files (with_stderr w (msg_duplicate (add_id args))) = files w
   /\ stored environ (with_stderr w (msg_duplicate (add_id args))) books).
Proof.
  intros Hs Hi.
  destruct (lookup_cases books (add_id args) (identified_carries books Hi))
    as [Hm|(before & d & after & Hl)].
  - split.
    + intros Hu w' Hadd.
      rewrite (cmd_add_fresh environ w books args Hs Hm) in Hadd.
      injection Hadd as <-. exists (books ++ [new_book args])%list. split.
      * apply stored_saved, Forall_app. split; [eapply stored_wf, Hs|].
        repeat constructor. apply new_book_wf.
      * unfold unique_ids. rewrite map_app. apply NoDup_app. repeat split.
        -- exact Hu.
        -- intros x Hx Hx'. simpl in Hx'. apply list_elem_of_singleton in Hx'.
           subst x. exact (misses_not_in _ _ Hi Hm Hx).
        -- apply NoDup_singleton.
    + intros Hin. exfalso. exact (misses_not_in _ _ Hi Hm Hin).
  - split.
    + intros _ w' Hadd.
      rewrite (cmd_add_duplicate environ w books before after d args Hs Hl) in Hadd.
      discriminate.
    + intros _. split; [|split].
      * exact (cmd_add_duplicate environ w books before after d args Hs Hl).
      * reflexivity.
      * apply stored_with_stderr, Hs.
Qed.

Lemma add_unique_ids_witness :
  (exists books',
     stored no_env
       (with_stdout (with_store no_env (store_of [dune]) (JArr [dune; ulysses]))
                    "Added book id 2") books'
     /\ unique_ids books') /\
  cmd_add no_env (AddNs 1 "Emma" "Austen" 1815 [] true) (store_of [dune])
  = (Exit 1, with_stderr (store_of [dune]) (msg_duplicate 1)).
Proof.
  split.
  - apply (add_unique_ids no_env (store_of [dune]) [dune] add_ulysses).
    + vm_compute. reflexivity.
    + repeat constructor. vm_compute. eauto.
    + apply (bool_decide_eq_true_1 _). vm_compute. reflexivity.
    + vm_compute. reflexivity.
  - apply (add_unique_ids no_env (store_of [dune]) [dune]
             (AddNs 1 "Emma" "Austen" 1815 [] true)).
    + vm_compute. reflexivity.
    + repeat constructor. vm_compute. eauto.
    + apply (bool_decide_eq_true_1 _). vm_compute. reflexivity.
Defined.


(** ** Not found (C2) *)

(** C2: on a stored catalog (empty or not) none of whose Books holds the
    id, [get], [update] and [delete] each report that the Book was not
    found on the error stream and exit with status 1; no file is written
    and the stored catalog is the same. *)
Theorem not_found (environ : gmap string string) (w : world)
    (books : list json) (id : Z) :
  stored environ w books -> misses id books ->
  let w' := with_stderr w (msg_not_found id) in
  cmd_get environ id w = (Exit 1, w') /\
  (forall args, upd_id args = id -> cmd_update environ args w = (Exit 1, w')) /\
  cmd_delete environ id w = (Exit 1, w') /\
  exit_status (@Exit unit 1) = Some 1 /\
  files w' = files w /\ stdout w' = stdout w /\
  stored environ w' books.
Proof.
  intros Hs Hm w'. repeat split.
  - apply cmd_get_missing with books; assumption.
  - intros args <-. apply cmd_update_missing with books; assumption.
  - apply cmd_delete_missing with books; assumption.
  - apply stored_with_stderr, Hs.
Qed.

Lemma not_found_witness :
  cmd_get no_env 7 (store_of [dune; ulysses])
  = (Exit 1, with_stderr (store_of [dune; ulysses]) (msg_not_found 7)) /\
  cmd_delete no_env 7 no_store
  = (Exit 1, with_stderr no_store (msg_not_found 7)).
Proof.
  split.
  - apply (not_found no_env (store_of [dune; ulysses]) [dune; ulysses] 7).
    + vm_compute. reflexivity.
    + repeat constructor.
  - apply (not_found no_env no_store [] 7).
    + vm_compute. reflexivity.
    + constructor.
Defined.

(** ** Partial update (C3) *)




(** ** Init (C6) *)

Lemma cmd_init_present (environ : gmap string string) (w : world) :
  is_Some (files w !! BOOKS_FILE environ) ->
  cmd_init environ w
  = (Ret tt, with_stdout w (BOOKS_FILE environ +:+ " already exists.")).
Proof.
  intros H. unfold cmd_init, bind, path_exists.
  rewrite bool_decide_eq_true_2 by exact H. reflexivity.
Qed.

Lemma cmd_init_absent (environ : gmap string string) (w : world) :
  files w !! BOOKS_FILE environ = None ->
  cmd_init environ w
  = (Ret tt, with_stdout (with_store environ w (JArr []))
                         ("Created empty " +:+ BOOKS_FILE environ)).
Proof.
  intros H. unfold cmd_init, bind, path_exists.
  rewrite bool_decide_eq_false_2 by (rewrite H; intros [x Hx]; discriminate).
  reflexivity.
Qed.

(** C6: when the store file exists, whatever it holds, init prints the
    notice, returns normally (status 0) and leaves every file as it is; when
    it does not exist, init saves the empty catalog, which is then the
    stored catalog.  Hence a second init never changes what the first one
    left, and neither ends in an error. *)
Theorem init_idempotent (environ : gmap string string) (w : world) :
  (is_Some (files w !! BOOKS_FILE environ) ->
   cmd_init environ w
   = (Ret tt, with_stdout w (BOOKS_FILE environ +:+ " already exists."))
   /\ files (snd (cmd_init environ w)) = files w) /\
  (files w !! BOOKS_FILE environ = None ->
   cmd_init environ w
   = (Ret tt, with_stdout (with_store environ w (JArr []))
                          ("Created empty " +:+ BOOKS_FILE environ))
   /\ stored environ (snd (cmd_init environ w)) []) /\
  fst (cmd_init environ w) = Ret tt /\
  exit_status (fst (cmd_init environ w)) = Some 0 /\
  fst (cmd_init environ (snd (cmd_init environ w))) = Ret tt /\
  files (snd (cmd_init environ (snd (cmd_init environ w))))
  = files (snd (cmd_init environ w)).
Proof.
  assert (Hsecond : forall w1, is_Some (files w1 !! BOOKS_FILE environ) ->
            fst (cmd_init environ w1) = Ret tt /\
            files (snd (cmd_init environ w1)) = files w1).
  { intros w1 H. rewrite (cmd_init_present environ w1 H). split; reflexivity. }
  destruct (files w !! BOOKS_FILE environ) as [text|] eqn:E.
  - assert (Hp : is_Some (files w !! BOOKS_FILE environ)) by (rewrite E; eauto).
    rewrite (cmd_init_present environ w Hp). simpl fst. simpl snd.
    split; [intros _; split; reflexivity|]. split; [discriminate|].
    split; [reflexivity|]. split; [reflexivity|].
    apply Hsecond. simpl. rewrite E. eauto.
  - rewrite (cmd_init_absent environ w E). simpl fst. simpl snd.
    split; [intros [x Hx]; discriminate|]. split.
    + intros _. split; [reflexivity|]. apply stored_saved. constructor.
    + split; [reflexivity|]. split; [reflexivity|].
      apply Hsecond. simpl. rewrite lookup_insert_eq. eauto.
Qed.

Lemma init_idempotent_witness :
  cmd_init no_env (store_of [dune])
  = (Ret tt, with_stdout (store_of [dune]) "books.json already exists.") /\
  cmd_init no_env no_store
  = (Ret tt, with_stdout (with_store no_env no_store (JArr []))
                         "Created empty books.json").
Proof.
  split.
  - apply (init_idempotent no_env (store_of [dune])). vm_compute. eauto.
  - apply (init_idempotent no_env no_store). vm_compute. reflexivity.
Defined.

(** ** The example scenario (C7) *)

(** C7: from a store whose catalog is empty, [add --id 1 --title Dune
    --author Herbert --year 1965] succeeds and the stored catalog is the
    single Book with these values, [genres] the empty list and [in_stock]
    true; [delete --id 1] then succeeds, the stored catalog is empty again
    and the store file holds the two brackets and a line break. *)
Theorem dune_scenario (environ : gmap string string) (w : world) :
  stored environ w [] ->
  let w1 := with_stdout (with_store environ w (JArr [dune])) "Added book id 1" in
  let w2 := with_stdout (with_store environ w1 (JArr [])) "Deleted book id 1" in
  main environ cli_add_dune w = (Ret tt, w1) /\
  stored environ w1 [dune] /\
  py_getitem dune "genres" = Ret (JArr []) /\
  py_getitem dune "in_stock" = Ret (JBool true) /\
  main environ cli_delete_1 w1 = (Ret tt, w2) /\
  stored environ w2 [] /\
  files w2 !! BOOKS_FILE environ = Some (String "[" (String "]" (chr LF))).
Proof.
  intros Hs w1 w2.
  assert (Hadd : main environ cli_add_dune w = (Ret tt, w1)).
  { change (main environ cli_add_dune w)
      with (cmd_add environ (AddNs 1 "Dune" "Herbert" 1965 [] true) w).
    rewrite (cmd_add_fresh environ w [] _ Hs); [reflexivity|constructor]. }
  assert (Hs1 : stored environ w1 [dune]).
  { apply stored_saved. repeat constructor. }
  assert (Hdel : main environ cli_delete_1 w1 = (Ret tt, w2)).
  { change (main environ cli_delete_1 w1) with (cmd_delete environ 1 w1).
    destruct (cmd_delete_located environ w1 [dune] [] []
                [ ("id", JInt 1); ("title", JStr "Dune");
                  ("author", JStr "Herbert"); ("year", JInt 1965);
                  ("genres", JArr []); ("in_stock", JBool true) ] 1 Hs1)
      as (shown & Hrun & Hshown).
    - repeat split. constructor.
    - rewrite Hrun, (Hshown 1 eq_refl). reflexivity. }
  repeat split; try assumption.
  - apply stored_saved. constructor.
  - unfold w2, with_stdout, with_store. simpl. apply lookup_insert_eq.
Qed.

Lemma dune_scenario_witness :
  main no_env cli_add_dune (world_with "[]")
  = (Ret tt,
     with_stdout (with_store no_env (world_with "[]") (JArr [dune]))
                 "Added book id 1").
Proof.
  apply (dune_scenario no_env (world_with "[]")). vm_compute. reflexivity.
Defined.


(** ** All six fields (C8) *)

(** C8, as stated, fails for a Book that comes from a store file written
    by hand: Load does not normalize, so a Book without [genres] and
    [in_stock] is still without them after a successful update. *)
Lemma sparse_stays_sparse :
  cmd_update no_env retitle (store_of [sparse])
  = (Ret tt,
     with_stdout
       (with_store no_env (store_of [sparse])
          (JArr [JObj [ ("id", JInt 1); ("title", JStr "Arrakis");
                        ("author", JStr "Herbert"); ("year", JInt 1965) ]]))
       "Updated book id 1")
  /\ stored no_env
       (with_stdout
          (with_store no_env (store_of [sparse])
             (JArr [JObj [ ("id", JInt 1); ("title", JStr "Arrakis");
                           ("author", JStr "Herbert"); ("year", JInt 1965) ]]))
          "Updated book id 1")
       [JObj [ ("id", JInt 1); ("title", JStr "Arrakis");
               ("author", JStr "Herbert"); ("year", JInt 1965) ]]
  /\ complete (JObj [ ("id", JInt 1); ("title", JStr "Arrakis");
                      ("author", JStr "Herbert"); ("year", JInt 1965) ])
     = false.
Proof. repeat split; vm_compute; reflexivity. Qed.

(** C8 (amended): the Book that add builds has all six fields, and every
    command that succeeds on a stored catalog whose Books all have the six
    fields leaves a stored catalog whose Books all have them. *)
Theorem complete_preserved (environ : gmap string string) (w w' : world)
    (books : list json) (args : namespace) :
  stored environ w books ->
  Forall (fun b => complete b = true) books ->
  func environ args w = (Ret tt, w') ->
  (forall a, complete (new_book a) = true) /\
  exists books',
    stored environ w' books' /\ Forall (fun b => complete b = true) books' /\
    (forall a, args = NsAdd a -> books' = (books ++ [new_book a])%list).
Proof.
  intros Hs Hc Hrun. split; [reflexivity|].
  pose proof (stored_wf environ w books Hs) as Hwf.
  assert (Hids : Forall (fun b => carries_id b = true) books).
  { eapply Forall_impl; [exact Hc|]. apply complete_carries_id. }
  destruct args as [|pretty|id|a|u|id]; simpl func in Hrun.
  - destruct (files w !! BOOKS_FILE environ) as [text|] eqn:E.
    + rewrite cmd_init_present in Hrun by (rewrite E; eauto).
      injection Hrun as <-. exists books.
      split; [apply stored_with_stdout, Hs|]. split; [exact Hc|discriminate].
    + rewrite (cmd_init_absent environ w E) in Hrun. injection Hrun as <-.
      exists []. split; [apply stored_saved; constructor|].
      split; [constructor|discriminate].
  - unfold cmd_list in Hrun. rewrite (bind_ret _ _ _ _ _ Hs) in Hrun.
    exists books. destruct pretty; injection Hrun as <-;
      (split; [apply stored_with_stdout, Hs|]); (split; [exact Hc|discriminate]).
  - destruct (lookup_cases books id Hids) as [Hm|(before & d & after & Hl)].
    + rewrite (cmd_get_missing environ w books id Hs Hm) in Hrun. discriminate.
    + rewrite (cmd_get_located environ w books before after d id Hs Hl) in Hrun.
      injection Hrun as <-. exists books.
      split; [apply stored_with_stdout, Hs|]. split; [exact Hc|discriminate].
  - destruct (lookup_cases books (add_id a) Hids)
      as [Hm|(before & d & after & Hl)].
    + rewrite (cmd_add_fresh environ w books a Hs Hm) in Hrun.
      injection Hrun as <-. exists (books ++ [new_book a])%list. split.
      * apply stored_saved, Forall_app. split; [exact Hwf|].
        repeat constructor. apply new_book_wf.
      * split; [|intros a' [= <-]; reflexivity].
        apply Forall_app. split; [exact Hc|]. repeat constructor.
    + rewrite (cmd_add_duplicate environ w books before after d a Hs Hl) in Hrun.
      discriminate.
  - destruct (lookup_cases books (upd_id u) Hids)
      as [Hm|(before & d & after & Hl)].
    + rewrite (cmd_update_missing environ w books u Hs Hm) in Hrun. discriminate.
    + rewrite (cmd_update_located environ w books before after d u Hs Hl) in Hrun.
      injection Hrun as <-. destruct Hl as (-> & _ & _).
      apply Forall_app in Hwf as [Wb Wa]. apply Forall_cons in Wa as [Wd Wa].
      apply Forall_app in Hc as [Cb Ca]. apply Forall_cons in Ca as [Cd Ca].
      exists (before ++ JObj (updated u d) :: after)%list. split.
      * apply stored_saved, Forall_app. split; [exact Wb|].
        constructor; [apply updated_wf, Wd|exact Wa].
      * split; [|discriminate]. apply Forall_app. split; [exact Cb|].
        constructor; [apply updated_complete, Cd|exact Ca].
  - destruct (lookup_cases books id Hids) as [Hm|(before & d & after & Hl)].
    + rewrite (cmd_delete_missing environ w books id Hs Hm) in Hrun. discriminate.
    + destruct (cmd_delete_located environ w books before after d id Hs Hl)
        as (shown & Hdel & _).
      rewrite Hdel in Hrun. injection Hrun as <-. destruct Hl as (-> & _ & _).
      apply Forall_app in Hwf as [Wb Wa]. apply Forall_cons in Wa as [Wd Wa].
      apply Forall_app in Hc as [Cb Ca]. apply Forall_cons in Ca as [Cd Ca].
      exists (before ++ after)%list. split.
      * apply stored_saved, Forall_app. split; assumption.
      * split; [|discriminate]. apply Forall_app. split; assumption.
Qed.

Lemma complete_preserved_witness :
  exists books',
    stored no_env
      (with_stdout (with_store no_env (store_of [dune]) (JArr [dune; ulysses]))
                   "Added book id 2") books'
    /\ Forall (fun b => complete b = true) books'
    /\ (forall a, NsAdd add_ulysses = NsAdd a ->
                  books' = ([dune] ++ [new_book a])%list).
Proof.
  apply (complete_preserved no_env (store_of [dune]) _ [dune] (NsAdd add_ulysses)).
  - vm_compute. reflexivity.
  - repeat constructor.
  - vm_compute. reflexivity.
Defined.

(** ** No shape validation (C9) *)

(** C9: three store files that are valid JSON but not a list of Books: a
    list holding a string, a top-level object, a list holding an object
    without an id.  Load returns each value as the catalog, printing
    nothing, and the id lookup of [get], [add], [update] and [delete] then
    ends in an exception nobody catches, for any id and any other
    arguments: no error is reported by the program and the status is 1. *)
Theorem unvalidated_shape :
  forall (id : Z) (a : add_ns) (u : update_ns),
  (let w := world_with text_stray_string in
   load_books no_env w = (Ret (JArr [JStr "x"]), w) /\
   carries_id (JStr "x") = false /\
   cmd_get no_env id w = (Raise TypeError, w) /\
   cmd_add no_env a w = (Raise TypeError, w) /\
   cmd_update no_env u w = (Raise TypeError, w) /\
   cmd_delete no_env id w = (Raise TypeError, w)) /\
  (let w := world_with text_top_object in
   load_books no_env w = (Ret (JObj [("title", JStr "Dune")]), w) /\
   cmd_get no_env id w = (Raise TypeError, w) /\
   cmd_add no_env a w = (Raise TypeError, w) /\
   cmd_update no_env u w = (Raise TypeError, w) /\
   cmd_delete no_env id w = (Raise TypeError, w)) /\
  (let w := world_with text_no_id in
   load_books no_env w = (Ret (JArr [JObj [("title", JStr "Dune")]]), w) /\
   carries_id (JObj [("title", JStr "Dune")]) = false /\
   cmd_get no_env id w = (Raise KeyError, w) /\
   cmd_add no_env a w = (Raise KeyError, w) /\
   cmd_update no_env u w = (Raise KeyError, w) /\
   cmd_delete no_env id w = (Raise KeyError, w)) /\
  exit_status (@Raise unit TypeError) = Some 1 /\
  exit_status (@Raise unit KeyError) = Some 1.
Proof. intros id a u. repeat split; vm_compute; reflexivity. Qed.

(** ** Update with the id only (C10) *)



End Claims.

(* ===================================================================== *)
(** * How the scans and the commands can end, on any store *)
(* ===================================================================== *)

Module Outcomes.
Import Json Py Crud Spec Endings JsonFacts CrudFacts.

(** ** The monad, continued *)

Lemma bind_raise {A B : Type} (m : M A) (k : A -> M B) (w w' : world) (e : exn) :
  m w = (Raise e, w') -> bind m k w = (Raise e, w').
Proof. intros H. unfold bind. rewrite H. reflexivity. Qed.

Lemma bind_unmodelled {A B : Type} (m : M A) (k : A -> M B) (w w' : world) :
  m w = (NotModelled, w') -> bind m k w = (NotModelled, w').
Proof. intros H. unfold bind. rewrite H. reflexivity. Qed.

(** ** The scans read backwards: what a result says about the list *)

(** The exception [b["id"]] raises on an item the lookup cannot read. *)
Lemma getitem_without_id (x : json) :
  carries_id x = false ->
  py_getitem x "id"
  = Raise (match x with JObj _ => KeyError | _ => TypeError end).
Proof.
  destruct x as [| | | | |d]; try reflexivity. simpl. intros H.
  apply bool_decide_eq_false in H.
  destruct (dict_get "id" d) as [v|]; [|reflexivity].
  exfalso. apply H. eauto.
Qed.

Lemma carries_id_cases (x : json) :
  carries_id x = true \/ carries_id x = false.
Proof. destruct (carries_id x); auto. Qed.

Lemma first_index_inv (items : list json) (id : Z) :
  forall (i : nat) (r : option nat),
  first_index items id i = Ret r ->
  match r with
  | Some j => exists before d after,
      located id items before d after /\ j = (i + length before)%nat
  | None => misses id items
  end.
Proof.
  induction items as [|b items IH]; intros i r H.
  - injection H as <-. constructor.
  - simpl first_index in H.
    destruct (carries_id_cases b) as [Hc|Hc].
    + destruct (getitem_id b Hc) as (d & v & -> & Hv & Hg).
      rewrite Hg in H. simpl obind in H.
      pose proof (id_matches_getitem id _ v Hg) as Hm.
      destruct (py_eq_int v id) eqn:E.
      * injection H as <-. exists [], d, items.
        split; [|simpl; lia]. repeat split; [constructor|exact Hm].
      * specialize (IH _ _ H). destruct r as [j|].
        -- destruct IH as (before & d' & after & (-> & Hb & Hd) & ->).
           exists (JObj d :: before), d', after. split; [|simpl; lia].
           repeat split; [|exact Hd]. constructor; [split; assumption|exact Hb].
        -- constructor; [split; assumption|exact IH].
    + rewrite (getitem_without_id b Hc) in H. discriminate.
Qed.

Lemma any_id_eq_inv (items : list json) (id : Z) (r : bool) :
  any_id_eq items id = Ret r ->
  if r then exists before d after, located id items before d after
  else misses id items.
Proof.
  revert r. induction items as [|b items IH]; intros r H.
  - injection H as <-. constructor.
  - simpl any_id_eq in H.
    destruct (carries_id_cases b) as [Hc|Hc].
    + destruct (getitem_id b Hc) as (d & v & -> & Hv & Hg).
      rewrite Hg in H. simpl obind in H.
      pose proof (id_matches_getitem id _ v Hg) as Hm.
      destruct (py_eq_int v id) eqn:E.
      * injection H as <-. exists [], d, items.
        repeat split; [constructor|exact Hm].
      * specialize (IH _ H). destruct r.
        -- destruct IH as (before & d' & after & (-> & Hb & Hd)).
           exists (JObj d :: before), d', after.
           repeat split; [|exact Hd]. constructor; [split; assumption|exact Hb].
        -- constructor; [split; assumption|exact IH].
    + rewrite (getitem_without_id b Hc) in H. discriminate.
Qed.

(** The scans end with a result or an exception, nothing else. *)
Lemma first_index_ends (items : list json) (id : Z) (i : nat) :
  (exists r, first_index items id i = Ret r) \/
  (exists e, first_index items id i = Raise e).
Proof.
  revert i. induction items as [|b items IH]; intros i; [left; eauto|].
  simpl. destruct (py_getitem b "id") as [v| |e|] eqn:E; simpl; eauto.
  - destruct (py_eq_int v id); eauto.
  - destruct b; simpl in E; try discriminate.
    destruct (dict_get "id" members); discriminate.
  - destruct b; simpl in E; try discriminate.
    destruct (dict_get "id" members); discriminate.
Qed.

Lemma any_id_eq_ends (items : list json) (id : Z) :
  (exists r, any_id_eq items id = Ret r) \/
  (exists e, any_id_eq items id = Raise e).
Proof.
  induction items as [|b items IH]; [left; eauto|].
  simpl. destruct (py_getitem b "id") as [v| |e|] eqn:E; simpl; eauto.
  - destruct (py_eq_int v id); eauto.
  - destruct b; simpl in E; try discriminate.
    destruct (dict_get "id" members); discriminate.
  - destruct b; simpl in E; try discriminate.
    destruct (dict_get "id" members); discriminate.
Qed.

(** The scan raises when it reaches an item it cannot read before any
    match. *)
Lemma first_index_raises (before after : list json) (x : json) (id : Z) (i : nat) :
  misses id before -> carries_id x = false ->
  first_index (before ++ x :: after) id i
  = Raise (match x with JObj _ => KeyError | _ => TypeError end).
Proof.
  intros Hb Hx. revert i. induction Hb as [|b before [Hc Hn] _ IH]; intros i.
  - simpl. rewrite (getitem_without_id x Hx). reflexivity.
  - destruct (getitem_id b Hc) as (d & v & -> & Hv & Hg).
    change ((JObj d :: before) ++ x :: after)%list
      with (JObj d :: (before ++ x :: after))%list.
    simpl first_index. rewrite Hv. simpl obind.
    rewrite <- (id_matches_getitem id _ v Hg), Hn. apply IH.
Qed.

Lemma any_id_eq_raises (before after : list json) (x : json) (id : Z) :
  misses id before -> carries_id x = false ->
  any_id_eq (before ++ x :: after) id
  = Raise (match x with JObj _ => KeyError | _ => TypeError end).
Proof.
  intros Hb Hx. induction Hb as [|b before [Hc Hn] _ IH].
  - simpl. rewrite (getitem_without_id x Hx). reflexivity.
  - destruct (getitem_id b Hc) as (d & v & -> & Hv & Hg).
    change ((JObj d :: before) ++ x :: after)%list
      with (JObj d :: (before ++ x :: after))%list.
    simpl any_id_eq. rewrite Hv. simpl obind.
    rewrite <- (id_matches_getitem id _ v Hg), Hn. exact IH.
Qed.

(** What [for b in v] visits when [v] is not a list are strings, and a
    string carries no id. *)
Lemma iter_non_list (v : json) (items : list json) :
  (forall books, v <> JArr books) -> py_iter v = Ret items ->
  Forall (fun x => carries_id x = false) items.
Proof.
  intros Hv H. destruct v as [| | |s|l|d]; try discriminate.
  - injection H as <-. apply Forall_forall.
    intros x (c & -> & _)%list_elem_of_fmap. reflexivity.
  - exfalso. exact (Hv l eq_refl).
  - injection H as <-. apply Forall_forall.
    intros x (k & -> & _)%list_elem_of_fmap. reflexivity.
Qed.

Lemma located_carries (id : Z) (items before after : list json) (d : dict) :
  located id items before d after ->
  ~ Forall (fun x => carries_id x = false) items.
Proof.
  intros (-> & _ & Hd) H. apply Forall_app in H as [_ H].
  apply Forall_cons in H as [H _]. simpl in Hd, H.
  destruct (dict_get "id" d); [|discriminate].
  apply bool_decide_eq_false in H. apply H. eauto.
Qed.


Section Ends.

Variable environ : gmap string string.

(** ** Load, on any world *)

Lemma load_books_cases (w : world) :
  (exists v, load_books environ w = (Ret v, w) /\ wf v) \/
  load_books environ w = (Exit 1, with_stderr w (msg_malformed environ)) \/
  load_books environ w = (NotModelled, w).
Proof.
  destruct (files w !! BOOKS_FILE environ) as [text|] eqn:E.
  - rewrite (load_books_present environ w text E).
    destruct (loads text) as [v r| | |] eqn:L; eauto.
    left. exists v. split; [reflexivity|]. eapply loads_wf, L.
  - left. exists (JArr []). split; [|reflexivity].
    apply load_books_absent, E.
Qed.

(** ** The two lookups, on any value *)

Lemma get_book_index_cases (v : json) (id : Z) (w : world) :
  (exists books before d after,
     v = JArr books /\ located id books before d after /\
     get_book_index v id w = (Ret (length before), w)) \/
  get_book_index v id w = (Exit 1, with_stderr w (msg_not_found id)) \/
  (exists e, get_book_index v id w = (Raise e, w)).
Proof.
  unfold get_book_index, bind, lift.
  destruct (py_iter v) as [items| |e|] eqn:Hit;
    try (destruct v; discriminate); simpl obind; [|eauto].
  destruct (first_index_ends items id 0) as [[r Hr]|[e He]];
    [|rewrite He; eauto].
  rewrite Hr. pose proof (first_index_inv items id 0 r Hr) as Hinv.
  destruct r as [j|]; [|auto].
  destruct Hinv as (before & d & after & Hl & ->). left.
  destruct v as [| | |s|l|m]; try discriminate.
  - exfalso. apply (located_carries _ _ _ _ _ Hl).
    apply (iter_non_list (JStr s)); [discriminate|exact Hit].
  - injection Hit as <-. exists l, before, d, after. auto.
  - exfalso. apply (located_carries _ _ _ _ _ Hl).
    apply (iter_non_list (JObj m)); [discriminate|exact Hit].
Qed.

Lemma ensure_unique_id_cases (v : json) (id : Z) (w : world) :
  (exists items, py_iter v = Ret items /\ misses id items /\
                 ensure_unique_id v id w = (Ret tt, w)) \/
  ensure_unique_id v id w = (Exit 1, with_stderr w (msg_duplicate id)) \/
  (exists e, ensure_unique_id v id w = (Raise e, w)).
Proof.
  unfold ensure_unique_id, bind, lift.
  destruct (py_iter v) as [items| |e|] eqn:Hit;
    try (destruct v; discriminate); simpl obind; [|eauto].
  destruct (any_id_eq_ends items id) as [[r Hr]|[e He]];
    [|rewrite He; eauto].
  rewrite Hr. pose proof (any_id_eq_inv items id r Hr) as Hinv.
  destruct r; [auto|]. left. exists items. auto.
Qed.

(** ** Each command: success as described, or one of the ways of
    [fails] *)

Lemma load_fails {A : Type} (k : json -> M A) (w : world) (r : outcome A * world) :
  bind (load_books environ) k w = r ->
  (exists v, load_books environ w = (Ret v, w) /\ wf v /\ k v w = r) \/
  (r = (Exit 1, with_stderr w (msg_malformed environ))) \/
  r = (NotModelled, w).
Proof.
  intros <-. destruct (load_books_cases w) as [(v & Hv & Hwf)|[H|H]].
  - left. exists v. rewrite (bind_ret _ _ _ _ _ Hv). auto.
  - right. left. apply bind_exit, H.
  - right. right. apply bind_unmodelled, H.
Qed.

Lemma cmd_list_cases (pretty : bool) (w : world) :
  (exists v, load_books environ w = (Ret v, w) /\
     cmd_list environ pretty w
     = (Ret tt, with_stdout w (dumps (if pretty then Some 2%nat else None) v))) \/
  fails w (cmd_list environ pretty w).
Proof.
  destruct (load_fails _ w _ (eq_refl (cmd_list environ pretty w)))
    as [(v & Hv & _ & Hk)|[H|H]].
  - left. exists v. split; [exact Hv|]. rewrite <- Hk. destruct pretty; reflexivity.
  - right. rewrite H. constructor.
  - right. rewrite H. constructor.
Qed.

Lemma cmd_get_cases (id : Z) (w : world) :
  (exists books before d after,
     stored environ w books /\ located id books before d after /\
     cmd_get environ id w
     = (Ret tt, with_stdout w (dumps (Some 2%nat) (JObj d)))) \/
  fails w (cmd_get environ id w).
Proof.
  destruct (load_fails _ w _ (eq_refl (cmd_get environ id w)))
    as [(v & Hv & _ & Hk)|[H|H]]; [|right; rewrite H; constructor..].
  destruct (get_book_index_cases v id w)
    as [(books & before & d & after & -> & Hl & _)|[Hg|[e Hg]]].
  - left. exists books, before, d, after. split; [exact Hv|].
    split; [exact Hl|]. apply cmd_get_located with books before after; assumption.
  - right. rewrite <- Hk, (bind_exit _ _ _ _ _ Hg). constructor.
  - right. rewrite <- Hk, (bind_raise _ _ _ _ _ Hg). constructor.
Qed.

Lemma cmd_add_cases (args : add_ns) (w : world) :
  (exists books,
     stored environ w books /\ misses (add_id args) books /\
     cmd_add environ args w
     = (Ret tt,
        with_stdout (with_store environ w (JArr (books ++ [new_book args])))
                    ("Added book id " +:+ int_repr (add_id args)))) \/
  fails w (cmd_add environ args w).
Proof.
  destruct (load_fails _ w _ (eq_refl (cmd_add environ args w)))
    as [(v & Hv & _ & Hk)|[H|H]]; [|right; rewrite H; constructor..].
  destruct (ensure_unique_id_cases v (add_id args) w)
    as [(items & Hit & Hm & He)|[He|[e He]]].
  - destruct v as [| | |s|books|m];
      try (right; rewrite <- Hk, (bind_ret _ _ _ _ _ He); constructor).
    injection Hit as <-. left. exists books. split; [exact Hv|].
    split; [exact Hm|]. apply cmd_add_fresh; assumption.
  - right. rewrite <- Hk, (bind_exit _ _ _ _ _ He). constructor.
  - right. rewrite <- Hk, (bind_raise _ _ _ _ _ He). constructor.
Qed.

Lemma cmd_update_cases (args : update_ns) (w : world) :
  (exists books before d after,
     stored environ w books /\ located (upd_id args) books before d after /\
     cmd_update environ args w
     = (Ret tt,
        with_stdout
          (with_store environ w (JArr (before ++ JObj (updated args d) :: after)))
          ("Updated book id " +:+ int_repr (upd_id args)))) \/
  fails w (cmd_update environ args w).
Proof.
  destruct (load_fails _ w _ (eq_refl (cmd_update environ args w)))
    as [(v & Hv & _ & Hk)|[H|H]]; [|right; rewrite H; constructor..].
  destruct (get_book_index_cases v (upd_id args) w)
    as [(books & before & d & after & -> & Hl & _)|[Hg|[e Hg]]].
  - left. exists books, before, d, after. split; [exact Hv|].
    split; [exact Hl|]. apply cmd_update_located with books; assumption.
  - right. rewrite <- Hk, (bind_exit _ _ _ _ _ Hg). constructor.
  - right. rewrite <- Hk, (bind_raise _ _ _ _ _ Hg). constructor.
Qed.

Lemma cmd_delete_cases (id : Z) (w : world) :
  (exists books before d after shown,
     stored environ w books /\ located id books before d after /\
     obind (py_getitem (JObj d) "id") py_str = Ret shown /\
     cmd_delete environ id w
     = (Ret tt,
        with_stdout (with_store environ w (JArr (before ++ after)))
                    ("Deleted book id " +:+ shown))) \/
  fails w (cmd_delete environ id w).
Proof.
  destruct (load_fails _ w _ (eq_refl (cmd_delete environ id w)))
    as [(v & Hv & _ & Hk)|[H|H]]; [|right; rewrite H; constructor..].
  destruct (get_book_index_cases v id w)
    as [(books & before & d & after & -> & Hl & Hg)|[Hg|[e Hg]]].
  - left. destruct (located_shown id d (proj2 (proj2 Hl))) as (shown & Hsh & _).
    exists books, before, d, after, shown. split; [exact Hv|].
    split; [exact Hl|]. split; [exact Hsh|].
    clear Hk. unfold cmd_delete.
    rewrite (bind_ret _ _ _ _ _ Hv), (bind_ret _ _ _ _ _ Hg).
    destruct Hl as (-> & _ & _).
    assert (Hpop : lift (py_pop (JArr (before ++ JObj d :: after)) (length before)) w
                   = (Ret (JObj d, JArr (before ++ after)), w)).
    { unfold lift, py_pop. rewrite list_lookup_middle by reflexivity.
      rewrite delete_middle. reflexivity. }
    rewrite (bind_ret _ _ _ _ _ Hpop). simpl snd. simpl fst.
    rewrite (bind_ret _ _ _ _ _ (save_books_eq environ w (JArr (before ++ after)))).
    unfold bind, lift. rewrite Hsh. reflexivity.
  - right. rewrite <- Hk, (bind_exit _ _ _ _ _ Hg). constructor.
  - right. rewrite <- Hk, (bind_raise _ _ _ _ _ Hg). constructor.
Qed.

Lemma stored_functional (w : world) (b1 b2 : list json) :
  stored environ w b1 -> stored environ w b2 -> b1 = b2.
Proof. unfold stored. intros H1 H2. rewrite H1 in H2. congruence. Qed.


(** Writing a value a key already holds changes nothing. *)
Lemma dict_set_same (k : string) (v : json) (d : dict) :
  dict_get k d = Some v -> dict_set k v d = d.
Proof.
  induction d as [|[k' v'] d IH]; simpl; [discriminate|].
  destruct (String.eqb k' k); [intros [= ->]; reflexivity|].
  intros H. rewrite (IH H). reflexivity.
Qed.

Lemma updated_twice (args : update_ns) (d : dict) :
  updated args (updated args d) = updated args d.
Proof.
  assert (Hfix : forall k, set_if_given k (supplied args k) (updated args d)
                           = updated args d).
  { intros k. destruct (supplied args k) as [x|] eqn:E; [|reflexivity].
    simpl. apply dict_set_same. rewrite updated_get, E. reflexivity. }
  assert (H1 : set_if_given "title" (JStr <$> upd_title args) (updated args d)
               = updated args d) by exact (Hfix "title").
  assert (H2 : set_if_given "author" (JStr <$> upd_author args) (updated args d)
               = updated args d) by exact (Hfix "author").
  assert (H3 : set_if_given "year" (JInt <$> upd_year args) (updated args d)
               = updated args d) by exact (Hfix "year").
  assert (H4 : set_if_given "genres" (str_list <$> upd_genres args) (updated args d)
               = updated args d) by exact (Hfix "genres").
  assert (H5 : set_if_given "in_stock" (JBool <$> upd_in_stock args) (updated args d)
               = updated args d) by exact (Hfix "in_stock").
  unfold updated at 1. rewrite H1, H2, H3, H4. exact H5.
Qed.

Lemma updated_id (args : update_ns) (d : dict) :
  dict_get "id" (updated args d) = dict_get "id" d.
Proof. rewrite updated_get. reflexivity. Qed.

Lemma located_updated (args : update_ns) (id : Z)
    (books before after : list json) (d : dict) :
  located id books before d after ->
  located id (before ++ JObj (updated args d) :: after) before
          (updated args d) after.
Proof.
  intros (_ & Hm & Hd). repeat split; [exact Hm|].
  simpl in Hd |- *. rewrite updated_id. exact Hd.
Qed.

Lemma located_new_book (args : add_ns) (books : list json) :
  misses (add_id args) books ->
  located (add_id args) (books ++ [new_book args]) books
    [ ("id", JInt (add_id args)); ("title", JStr (add_title args));
      ("author", JStr (add_author args)); ("year", JInt (add_year args));
      ("genres", str_list (or_empty (add_genres args)));
      ("in_stock", JBool (add_in_stock args)) ] [].
Proof.
  intros Hm. repeat split; [exact Hm|]. simpl. apply Z.eqb_refl.
Qed.

(** ** The store after each writing command *)

Lemma stored_after_add (w : world) (books : list json) (args : add_ns)
    (line : string) :
  stored environ w books ->
  stored environ
    (with_stdout (with_store environ w (JArr (books ++ [new_book args]))) line)
    (books ++ [new_book args]).
Proof.
  intros Hs. apply stored_saved, Forall_app.
  split; [eapply stored_wf, Hs|]. repeat constructor. apply new_book_wf.
Qed.

Lemma stored_after_update (w : world) (before after : list json) (d : dict)
    (args : update_ns) (line : string) :
  stored environ w (before ++ JObj d :: after) ->
  stored environ
    (with_stdout
       (with_store environ w (JArr (before ++ JObj (updated args d) :: after)))
       line)
    (before ++ JObj (updated args d) :: after).
Proof.
  intros Hs. apply stored_saved. pose proof (stored_wf environ w _ Hs) as Hwf.
  apply Forall_app in Hwf as [Hb Ha]. apply Forall_cons in Ha as [Hd Ha].
  apply Forall_app. split; [exact Hb|]. constructor; [|exact Ha].
  apply updated_wf, Hd.
Qed.

Lemma stored_after_delete (w : world) (before after : list json) (x : json)
    (line : string) :
  stored environ w (before ++ x :: after) ->
  stored environ
    (with_stdout (with_store environ w (JArr (before ++ after))) line)
    (before ++ after).
Proof.
  intros Hs. apply stored_saved. pose proof (stored_wf environ w _ Hs) as Hwf.
  apply Forall_app in Hwf as [Hb Ha]. apply Forall_cons in Ha as [_ Ha].
  apply Forall_app. split; assumption.
Qed.

(** ** Every run, summed up *)

Lemma fails_not_ret (w : world) (r : outcome unit * world) :
  fails w r -> fst r <> Ret tt.
Proof. intros [line|e|]; discriminate. Qed.

Lemma cmd_init_ends (w : world) :
  cmd_init environ w
  = (Ret tt, with_stdout w (BOOKS_FILE environ +:+ " already exists.")) \/
  cmd_init environ w
  = (Ret tt, with_stdout (with_store environ w (JArr []))
                         ("Created empty " +:+ BOOKS_FILE environ)).
Proof.
  unfold cmd_init, bind, path_exists.
  destruct (bool_decide (is_Some (files w !! BOOKS_FILE environ))); auto.
Qed.

(** A command returns normally after one line on standard output, with
    the files as they were or with the store file rewritten by Save; or it
    ends in one of the ways of [fails]. *)
Lemma func_ends (args : namespace) (w : world) :
  (exists line, func environ args w = (Ret tt, with_stdout w line)) \/
  (exists v line,
     func environ args w = (Ret tt, with_stdout (with_store environ w v) line)) \/
  fails w (func environ args w).
Proof.
  destruct args as [|pretty|id|a|u|id]; simpl func.
  - destruct (cmd_init_ends w) as [H|H]; rewrite H; eauto.
  - destruct (cmd_list_cases pretty w) as [(v & _ & H)|H]; [rewrite H|]; eauto.
  - destruct (cmd_get_cases id w) as [(b & be & d & af & _ & _ & H)|H];
      [rewrite H|]; eauto.
  - destruct (cmd_add_cases a w) as [(b & _ & _ & H)|H]; [rewrite H|]; eauto.
  - destruct (cmd_update_cases u w) as [(b & be & d & af & _ & _ & H)|H];
      [rewrite H|]; eauto.
  - destruct (cmd_delete_cases id w) as [(b & be & d & af & sh & _ & _ & _ & H)|H];
      [rewrite H|]; eauto.
Qed.

Lemma main_ends (c : cmdline) (w : world) :
  (exists line, main environ c w = (Ret tt, with_stdout w line)) \/
  (exists v line,
     main environ c w = (Ret tt, with_stdout (with_store environ w v) line)) \/
  fails w (main environ c w) \/
  main environ c w = (Exit 2, w).
Proof.
  unfold main. destruct (build_parser c) as [args|]; [|auto].
  destruct (func_ends args w) as [H|[H|H]]; auto.
Qed.


End Ends.
End Outcomes.

(* ===================================================================== *)
(** * Further properties of the commands *)
(* ===================================================================== *)

Module Extras.
Import Json Py Crud Spec Endings Examples JsonFacts CrudFacts Outcomes.

(** ** Reading commands *)

(** X1: [list] prints the stored catalog (the empty list when there is
    no store file), indented by two spaces with [--pretty] and on one line
    without, and writes nothing; in both modes the printed text decodes to
    the stored catalog. *)
Theorem list_prints_catalog (environ : gmap string string) (w : world)
    (books : list json) (pretty : bool) :
  stored environ w books ->
  let text := dumps (if pretty then Some 2%nat else None) (JArr books) in
  cmd_list environ pretty w = (Ret tt, with_stdout w text) /\
  loads text = Parsed (JArr books) "".
Proof.
  intros Hs text. split.
  - unfold cmd_list. rewrite (bind_ret _ _ _ _ _ Hs). destruct pretty; reflexivity.
  - rewrite <- (sapp_nil_r text). apply loads_dumps; [|reflexivity].
    apply wf_arr_intro. eapply stored_wf, Hs.
Qed.

Lemma list_prints_catalog_witness :
  cmd_list no_env false (store_of [dune; ulysses])
  = (Ret tt, with_stdout (store_of [dune; ulysses])
                         (dumps None (JArr [dune; ulysses])))
  /\ loads (dumps None (JArr [dune; ulysses])) = Parsed (JArr [dune; ulysses]) "".
Proof.
  apply (list_prints_catalog no_env (store_of [dune; ulysses]) [dune; ulysses] false).
  vm_compute. reflexivity.
Defined.

(** X2: [get] prints the first Book that holds the id, indented by two
    spaces, and writes nothing; whatever follows that Book in the catalog
    is not looked at.  The printed text decodes to the Book. *)
Theorem get_prints_book (environ : gmap string string) (w : world)
    (books before after : list json) (d : dict) (id : Z) :
  stored environ w books -> located id books before d after ->
  let text := dumps (Some 2%nat) (JObj d) in
  cmd_get environ id w = (Ret tt, with_stdout w text) /\
  loads text = Parsed (JObj d) "".
Proof.
  intros Hs Hl text. split.
  - apply cmd_get_located with books before after; assumption.
  - rewrite <- (sapp_nil_r text). apply loads_dumps; [|reflexivity].
    pose proof (stored_wf environ w books Hs) as Hwf.
    destruct Hl as (-> & _ & _). apply Forall_app in Hwf as [_ Hwf].
    apply Forall_cons in Hwf as [Hd _]. exact Hd.
Qed.

Lemma get_prints_book_witness :
  cmd_get no_env 1 (store_of [ulysses; dune; twin; JStr "stray"])
  = (Ret tt, with_stdout (store_of [ulysses; dune; twin; JStr "stray"])
                         (dumps (Some 2%nat) dune)).
Proof.
  apply (get_prints_book no_env (store_of [ulysses; dune; twin; JStr "stray"])
           [ulysses; dune; twin; JStr "stray"] [ulysses] [twin; JStr "stray"]
           [ ("id", JInt 1); ("title", JStr "Dune"); ("author", JStr "Herbert");
             ("year", JInt 1965); ("genres", JArr []); ("in_stock", JBool true) ]
           1).
  - vm_compute. reflexivity.
  - repeat split. repeat constructor.
Defined.

(** ** Writing commands *)






(** ** How the commands compose *)

(** X5: after a successful [add], [get] with the same id prints the Book
    that was added. *)
Theorem add_then_get (environ : gmap string string) (w : world)
    (books : list json) (args : add_ns) :
  stored environ w books -> misses (add_id args) books ->
  let w1 := snd (cmd_add environ args w) in
  fst (cmd_add environ args w) = Ret tt /\
  cmd_get environ (add_id args) w1
  = (Ret tt, with_stdout w1 (dumps (Some 2%nat) (new_book args))).
Proof.
  intros Hs Hm w1. unfold w1.
  rewrite (cmd_add_fresh environ w books args Hs Hm).
  split; [reflexivity|]. simpl snd.
  exact (cmd_get_located environ _ _ books [] _ (add_id args)
           (stored_after_add environ w books args _ Hs)
           (located_new_book args books Hm)).
Qed.

Lemma add_then_get_witness :
  cmd_get no_env 2 (snd (cmd_add no_env add_ulysses (store_of [dune])))
  = (Ret tt, with_stdout (snd (cmd_add no_env add_ulysses (store_of [dune])))
                         (dumps (Some 2%nat) ulysses)).
Proof.
  apply (add_then_get no_env (store_of [dune]) [dune] add_ulysses).
  - vm_compute. reflexivity.
  - repeat constructor.
Defined.





(** X8: [update] never touches the id of a Book nor its place in the
    catalog: after an update the same id locates the updated Book at the
    same position, and [get] prints it. *)
Theorem update_then_get (environ : gmap string string) (w : world)
    (books before after : list json) (d : dict) (args : update_ns) :
  stored environ w books -> located (upd_id args) books before d after ->
  let w1 := snd (cmd_update environ args w) in
  let d' := updated args d in
  dict_get "id" d' = dict_get "id" d /\
  stored environ w1 (before ++ JObj d' :: after) /\
  located (upd_id args) (before ++ JObj d' :: after) before d' after /\
  cmd_get environ (upd_id args) w1
  = (Ret tt, with_stdout w1 (dumps (Some 2%nat) (JObj d'))).
Proof.
  intros Hs Hl w1 d'.
  pose proof (cmd_update_located environ w books before after d args Hs Hl) as Hrun.
  pose proof (located_updated args _ _ _ _ _ Hl) as Hl1.
  assert (Hs1 : stored environ
                  (with_stdout
                     (with_store environ w (JArr (before ++ JObj d' :: after)))
                     ("Updated book id " +:+ int_repr (upd_id args)))
                  (before ++ JObj d' :: after)).
  { destruct Hl as (-> & _ & _). apply stored_after_update, Hs. }
  unfold w1. rewrite Hrun. simpl snd.
  split; [apply updated_id|]. split; [exact Hs1|]. split; [exact Hl1|].
  apply (cmd_get_located environ _ _ before after d' (upd_id args) Hs1 Hl1).
Qed.

Lemma update_then_get_witness :
  cmd_get no_env 1 (snd (cmd_update no_env retitle (store_of [ulysses; dune])))
  = (Ret tt,
     with_stdout (snd (cmd_update no_env retitle (store_of [ulysses; dune])))
       (dumps (Some 2%nat)
          (JObj [ ("id", JInt 1); ("title", JStr "Arrakis");
                  ("author", JStr "Herbert"); ("year", JInt 1965);
                  ("genres", JArr []); ("in_stock", JBool true) ]))).
Proof.
  apply (update_then_get no_env (store_of [ulysses; dune]) [ulysses; dune]
           [ulysses] []
           [ ("id", JInt 1); ("title", JStr "Dune"); ("author", JStr "Herbert");
             ("year", JInt 1965); ("genres", JArr []); ("in_stock", JBool true) ]
           retitle).
  - vm_compute. reflexivity.
  - repeat split. repeat constructor.
Defined.

(** X9: [update] is idempotent: running the same update a second time
    succeeds and leaves the stored catalog, and the store file, as the
    first run left them. *)
Theorem update_twice (environ : gmap string string) (w : world)
    (books before after : list json) (d : dict) (args : update_ns) :
  stored environ w books -> located (upd_id args) books before d after ->
  let w1 := snd (cmd_update environ args w) in
  let w2 := snd (cmd_update environ args w1) in
  fst (cmd_update environ args w1) = Ret tt /\
  files w2 = files w1 /\
  stored environ w2 (before ++ JObj (updated args d) :: after).
Proof.
  intros Hs Hl w1 w2.
  pose proof (cmd_update_located environ w books before after d args Hs Hl) as Hrun.
  pose proof (located_updated args _ _ _ _ _ Hl) as Hl1.
  assert (Hs1 : stored environ
                  (with_stdout
                     (with_store environ w
                        (JArr (before ++ JObj (updated args d) :: after)))
                     ("Updated book id " +:+ int_repr (upd_id args)))
                  (before ++ JObj (updated args d) :: after)).
  { destruct Hl as (-> & _ & _). apply stored_after_update, Hs. }
  pose proof (cmd_update_located environ _ _ before after (updated args d) args
                Hs1 Hl1) as Hrun2.
  unfold w2, w1. rewrite Hrun. simpl snd. rewrite Hrun2. simpl fst. simpl snd.
  rewrite updated_twice. split; [reflexivity|]. split.
  - simpl. apply insert_insert_eq.
  - apply stored_saved. eapply stored_wf, Hs1.
Qed.

Lemma update_twice_witness :
  files (snd (cmd_update no_env retitle
                (snd (cmd_update no_env retitle (store_of [ulysses; dune])))))
  = files (snd (cmd_update no_env retitle (store_of [ulysses; dune]))).
Proof.
  apply (update_twice no_env (store_of [ulysses; dune]) [ulysses; dune]
           [ulysses] []
           [ ("id", JInt 1); ("title", JStr "Dune"); ("author", JStr "Herbert");
             ("year", JInt 1965); ("genres", JArr []); ("in_stock", JBool true) ]
           retitle).
  - vm_compute. reflexivity.
  - repeat split. repeat constructor.
Defined.


(** ** Invariants *)

(** X10: every command that succeeds on a stored catalog of Books with
    pairwise distinct integer ids leaves a stored catalog of Books with
    pairwise distinct integer ids. *)
Theorem ids_stay_unique (environ : gmap string string) (w w' : world)
    (books : list json) (args : namespace) :
  stored environ w books -> identified books -> unique_ids books ->
  func environ args w = (Ret tt, w') ->
  exists books',
    stored environ w' books' /\ identified books' /\ unique_ids books'.
Proof.
  intros Hs Hi Hu Hrun.
  pose proof (identified_carries books Hi) as Hids.
  destruct args as [|pretty|id|a|u|id]; simpl func in Hrun.
  - destruct (cmd_init_ends environ w) as [H|H]; rewrite H in Hrun;
      injection Hrun as <-.
    + exists books. split; [apply stored_with_stdout, Hs|]. split; assumption.
    + exists []. split; [apply stored_saved; constructor|].
      split; constructor.
  - unfold cmd_list in Hrun. rewrite (bind_ret _ _ _ _ _ Hs) in Hrun.
    exists books. destruct pretty; injection Hrun as <-;
      (split; [apply stored_with_stdout, Hs|]); split; assumption.
  - destruct (lookup_cases books id Hids) as [Hm|(before & d & after & Hl)].
    + rewrite (cmd_get_missing environ w books id Hs Hm) in Hrun. discriminate.
    + rewrite (cmd_get_located environ w books before after d id Hs Hl) in Hrun.
      injection Hrun as <-. exists books.
      split; [apply stored_with_stdout, Hs|]. split; assumption.
  - destruct (lookup_cases books (add_id a) Hids)
      as [Hm|(before & d & after & Hl)].
    + rewrite (cmd_add_fresh environ w books a Hs Hm) in Hrun.
      injection Hrun as <-. exists (books ++ [new_book a])%list.
      split; [apply stored_after_add, Hs|]. split.
      * apply Forall_app. split; [exact Hi|]. repeat constructor. simpl. eauto.
      * unfold unique_ids. rewrite map_app. apply NoDup_app. repeat split.
        -- exact Hu.
        -- intros x Hx Hx'. simpl in Hx'. apply list_elem_of_singleton in Hx'.
           subst x. exact (misses_not_in _ _ Hi Hm Hx).
        -- apply NoDup_singleton.
    + rewrite (cmd_add_duplicate environ w books before after d a Hs Hl) in Hrun.
      discriminate.
  - destruct (lookup_cases books (upd_id u) Hids)
      as [Hm|(before & d & after & Hl)].
    + rewrite (cmd_update_missing environ w books u Hs Hm) in Hrun. discriminate.
    + rewrite (cmd_update_located environ w books before after d u Hs Hl) in Hrun.
      injection Hrun as <-. destruct Hl as (-> & _ & _).
      assert (Hid : book_id (JObj (updated u d)) = book_id (JObj d)).
      { simpl. rewrite updated_id. reflexivity. }
      exists (before ++ JObj (updated u d) :: after)%list.
      split; [apply stored_after_update, Hs|]. split.
      * unfold identified in *. apply Forall_app in Hi as [Hb Ha].
        apply Forall_cons in Ha as [Hd Ha]. apply Forall_app.
        split; [exact Hb|]. constructor; [rewrite Hid; exact Hd|exact Ha].
      * unfold unique_ids in *. rewrite map_app, map_cons in Hu.
        rewrite map_app, map_cons, Hid. exact Hu.
  - destruct (lookup_cases books id Hids) as [Hm|(before & d & after & Hl)].
    + rewrite (cmd_delete_missing environ w books id Hs Hm) in Hrun. discriminate.
    + destruct (cmd_delete_located environ w books before after d id Hs Hl)
        as (shown & Hdel & _).
      rewrite Hdel in Hrun. injection Hrun as <-. destruct Hl as (-> & _ & _).
      exists (before ++ after)%list.
      split; [eapply stored_after_delete, Hs|]. split.
      * unfold identified in *. apply Forall_app in Hi as [Hb Ha].
        apply Forall_cons in Ha as [_ Ha]. apply Forall_app. split; assumption.
      * unfold unique_ids in *. rewrite map_app, map_cons in Hu.
        rewrite map_app.
        apply NoDup_app in Hu as (Hb & Hdis & Ha).
        apply NoDup_cons in Ha as [_ Ha]. apply NoDup_app.
        repeat split; [exact Hb| |exact Ha].
        intros x Hx Hx'. apply (Hdis x Hx). right. exact Hx'.
Qed.

Lemma ids_stay_unique_witness :
  exists books',
    stored no_env
      (with_stdout (with_store no_env (store_of [ulysses; dune]) (JArr [ulysses]))
                   "Deleted book id 1") books'
    /\ identified books' /\ unique_ids books'.
Proof.
  apply (ids_stay_unique no_env (store_of [ulysses; dune]) _ [ulysses; dune]
           (NsDelete 1)).
  - vm_compute. reflexivity.
  - repeat constructor; vm_compute; eauto.
  - apply (bool_decide_eq_true_1 _). vm_compute. reflexivity.
  - vm_compute. reflexivity.
Defined.

(** X11: on any store whatever, [get], [update] and [delete] return
    normally only when the store decodes to a list in which a Book holds
    the id, and [add] only when it decodes to a list of id-carrying Books
    none of which holds the id. *)
Theorem success_needs (environ : gmap string string) (w : world) :
  (forall id, fst (cmd_get environ id w) = Ret tt ->
     exists books before d after,
       stored environ w books /\ located id books before d after) /\
  (forall u, fst (cmd_update environ u w) = Ret tt ->
     exists books before d after,
       stored environ w books /\ located (upd_id u) books before d after) /\
  (forall id, fst (cmd_delete environ id w) = Ret tt ->
     exists books before d after,
       stored environ w books /\ located id books before d after) /\
  (forall a, fst (cmd_add environ a w) = Ret tt ->
     exists books, stored environ w books /\ misses (add_id a) books).
Proof.
  split; [|split; [|split]].
  - intros id H.
    destruct (cmd_get_cases environ id w) as [(b & be & d & af & Hs & Hl & _)|Hf];
      [eauto 6|]. destruct (fails_not_ret _ _ Hf H).
  - intros u H.
    destruct (cmd_update_cases environ u w) as [(b & be & d & af & Hs & Hl & _)|Hf];
      [eauto 6|]. destruct (fails_not_ret _ _ Hf H).
  - intros id H.
    destruct (cmd_delete_cases environ id w)
      as [(b & be & d & af & sh & Hs & Hl & _)|Hf];
      [eauto 6|]. destruct (fails_not_ret _ _ Hf H).
  - intros a H.
    destruct (cmd_add_cases environ a w) as [(b & Hs & Hm & _)|Hf];
      [eauto|]. destruct (fails_not_ret _ _ Hf H).
Qed.

Lemma success_needs_witness :
  exists books before d after,
    stored no_env (store_of [ulysses; dune]) books /\
    located 1 books before d after.
Proof.
  apply (success_needs no_env (store_of [ulysses; dune])).
  vm_compute. reflexivity.
Defined.



(** ** The command line *)

(** X13: a command line is rejected when it gives both [--in-stock] and
    [--out-of-stock] (under any subcommand), when it gives no [--id] to a
    subcommand other than [init] and [list], or when [add] lacks one of
    [--title], [--author], [--year].  No namespace is built and no command
    runs: the process exits with status 2, no file is changed and nothing is
    printed on standard output.  (What [argparse] prints on the error stream
    is outside the statement.) *)
Theorem rejected_command_line (environ : gmap string string) (c : cmdline)
    (w : world) :
  c_in_stock c && c_out_of_stock c = true \/
  (c_id c = None /\ c_command c <> "init" /\ c_command c <> "list") \/
  (c_command c = "add" /\
   (c_title c = None \/ c_author c = None \/ c_year c = None)) ->
  build_parser c = None /\
  fst (main environ c w) = Exit 2 /\
  files (snd (main environ c w)) = files w /\
  stdout (snd (main environ c w)) = stdout w.
Proof.
  intros H.
  assert (Hp : build_parser c = None).
  { unfold build_parser, stock_group, no_book_options.
    destruct H as [H|[(Hid & Hi & Hl)|(Hc & H)]].
    - apply andb_true_iff in H as [-> ->]. rewrite !andb_false_r.
      repeat match goal with
             | |- context [String.eqb ?a ?b] => destruct (String.eqb a b)
             | |- context [match ?x with _ => _ end] => destruct x
             end; reflexivity.
    - rewrite Hid. apply String.eqb_neq in Hi, Hl. rewrite Hi, Hl.
      repeat match goal with
             | |- context [String.eqb ?a ?b] => destruct (String.eqb a b)
             end; reflexivity.
    - rewrite Hc. simpl.
      destruct H as [-> | [-> | ->]];
        repeat match goal with
               | |- context [match ?x with _ => _ end] => destruct x
               end; reflexivity. }
  split; [exact Hp|]. unfold main. rewrite Hp. repeat split.
Qed.

Lemma rejected_command_line_witness :
  build_parser (CmdLine "update" false (Some 1) None None None None true true)
  = None /\
  fst (main no_env
         (CmdLine "update" false (Some 1) None None None None true true)
         (store_of [dune]))
  = Exit 2 /\
  files (snd (main no_env
                (CmdLine "update" false (Some 1) None None None None true true)
                (store_of [dune])))
  = files (store_of [dune]) /\
  stdout (snd (main no_env
                 (CmdLine "update" false (Some 1) None None None None true true)
                 (store_of [dune])))
  = stdout (store_of [dune]).
Proof.
  apply (rejected_command_line no_env
           (CmdLine "update" false (Some 1) None None None None true true)
           (store_of [dune])).
  left. reflexivity.
Defined.



(** ** Stores that are not what the program expects *)

(** X15: when the id scan reaches, before any Book that holds the id, an
    item it cannot read (anything but an object, or an object without an
    ["id"]), [get], [add], [update] and [delete] all end in an uncaught
    exception, [TypeError] for a non-object and [KeyError] for an object,
    with nothing printed by the program and nothing written. *)
Theorem lookup_raises (environ : gmap string string) (w : world)
    (before after : list json) (x : json) (id : Z) :
  stored environ w (before ++ x :: after) ->
  misses id before -> carries_id x = false ->
  let e := match x with JObj _ => KeyError | _ => TypeError end in
  cmd_get environ id w = (Raise e, w) /\
  (forall a, add_id a = id -> cmd_add environ a w = (Raise e, w)) /\
  (forall u, upd_id u = id -> cmd_update environ u w = (Raise e, w)) /\
  cmd_delete environ id w = (Raise e, w).
Proof.
  intros Hs Hm Hx e.
  assert (Hg : get_book_index (JArr (before ++ x :: after)) id w = (Raise e, w)).
  { unfold get_book_index, bind, lift. simpl py_iter. simpl obind.
    rewrite (first_index_raises before after x id 0 Hm Hx). reflexivity. }
  assert (Hu : ensure_unique_id (JArr (before ++ x :: after)) id w = (Raise e, w)).
  { unfold ensure_unique_id, bind, lift. simpl py_iter. simpl obind.
    rewrite (any_id_eq_raises before after x id Hm Hx). reflexivity. }
  split; [|split; [|split]].
  - unfold cmd_get. rewrite (bind_ret _ _ _ _ _ Hs). apply bind_raise, Hg.
  - intros a <-. unfold cmd_add. rewrite (bind_ret _ _ _ _ _ Hs).
    apply bind_raise, Hu.
  - intros u <-. unfold cmd_update. rewrite (bind_ret _ _ _ _ _ Hs).
    apply bind_raise, Hg.
  - unfold cmd_delete. rewrite (bind_ret _ _ _ _ _ Hs). apply bind_raise, Hg.
Qed.

Lemma lookup_raises_witness :
  cmd_get no_env 1 (store_of [ulysses; JNull; dune])
  = (Raise TypeError, store_of [ulysses; JNull; dune]).
Proof.
  apply (lookup_raises no_env (store_of [ulysses; JNull; dune])
           [ulysses] [dune] JNull 1).
  - vm_compute. reflexivity.
  - repeat constructor.
  - reflexivity.
Defined.

(** ** What no run does *)

(** X16: every check comes before the first write.  A run that ends by
    [sys.exit] (a rejected command line, or the report of a malformed store,
    of a duplicate id, of an id that was not found) or in one of the
    exceptions of the id scan and of [append] ([KeyError], [TypeError],
    [AttributeError], [IndexError]) has changed no file and printed nothing
    on standard output. *)
Theorem failure_writes_nothing (environ : gmap string string) (c : cmdline)
    (w : world) :
  (exists code, fst (main environ c w) = Exit code) \/
  (exists e, fst (main environ c w) = Raise e) ->
  files (snd (main environ c w)) = files w /\
  stdout (snd (main environ c w)) = stdout w.
Proof.
  intros H.
  destruct (main_ends environ c w) as [(l & E)|[(v & l & E)|[Hf|E]]].
  - rewrite E in H. destruct H as [[? H]|[? H]]; discriminate.
  - rewrite E in H. destruct H as [[? H]|[? H]]; discriminate.
  - destruct Hf as [line|e|].
    + split; reflexivity.
    + split; reflexivity.
    + destruct H as [[? H]|[? H]]; discriminate.
  - rewrite E. split; reflexivity.
Qed.

Lemma failure_writes_nothing_witness :
  files (snd (main no_env cli_delete_1 (store_of [ulysses])))
  = files (store_of [ulysses]) /\
  stdout (snd (main no_env cli_delete_1 (store_of [ulysses])))
  = stdout (store_of [ulysses]).
Proof.
  apply (failure_writes_nothing no_env cli_delete_1 (store_of [ulysses])).
  left. exists 1. vm_compute. reflexivity.
Defined.

(** X17: no run writes any file but the store file: every other path
    holds after the run what it held before.  With [BOOKS_FILE] set to
    another path, [books.json] itself is such a file. *)
Theorem other_files_untouched (environ : gmap string string) (c : cmdline)
    (w : world) (path : string) :
  path <> BOOKS_FILE environ ->
  files (snd (main environ c w)) !! path = files w !! path.
Proof.
  intros Hp.
  destruct (main_ends environ c w) as [(l & E)|[(v & l & E)|[Hf|E]]].
  - rewrite E. reflexivity.
  - rewrite E. simpl. apply lookup_insert_ne. congruence.
  - destruct Hf; reflexivity.
  - rewrite E. reflexivity.
Qed.

Lemma other_files_untouched_witness :
  files (snd (main {[ "BOOKS_FILE" := "shelf.json" ]} cli_add_dune
                   (store_of [ulysses]))) !! "books.json"
  = files (store_of [ulysses]) !! "books.json".
Proof.
  apply (other_files_untouched {[ "BOOKS_FILE" := "shelf.json" ]} cli_add_dune
           (store_of [ulysses]) "books.json").
  vm_compute. discriminate.
Defined.



End Extras.
